(** * Issue dashboard: sync pipeline, storage layer and normalisation library

    A shallow embedding of [utils/common.py], [utils/db.py],
    [scripts/sync_google_sheets.py] and the [COLUMN_MAPPING] table of
    [config.py], with the properties of the specification stated on it.

    Conventions of the embedding:
    - a Python [str] is a [string] whose characters are read as code points
      below 256;
    - a cell value is [None], an [int] or a [str] ([value]); floats and
      bytes are not modelled;
    - a Python [dict] with string keys is a [gmap string _];
    - code that can raise runs in the monad [M]: a state transformer over
      [world] whose result is [Return a] or [Raise e]. *)

From Stdlib Require Import ZArith Ascii String List Lia.
From stdpp Require Import base option strings list gmap fin_maps sorting pretty.

Local Open Scope string_scope.
Local Open Scope Z_scope.
Local Open Scope list_scope.

(** ** Python strings and cell values *)

Module Py.

(** [str.isspace] on one character (code points below 256). *)
Definition isspace (c : ascii) : bool :=
  let n := N_of_ascii c in
  ((9 <=? n) && (n <=? 13) || (28 <=? n) && (n <=? 32)
   || (n =? 133) || (n =? 160))%N.

Fixpoint lstrip (s : string) : string :=
  match s with
  | EmptyString => EmptyString
  | String c s' => if isspace c then lstrip s' else s
  end.

Fixpoint rstrip (s : string) : string :=
  match s with
  | EmptyString => EmptyString
  | String c s' =>
      match rstrip s' with
      | EmptyString => if isspace c then EmptyString else String c EmptyString
      | r => String c r
      end
  end.

(** [s.strip()] *)
Definition strip (s : string) : string := rstrip (lstrip s).

(** Strings made of white space only. *)
Fixpoint blank (s : string) : bool :=
  match s with
  | EmptyString => true
  | String c s' => isspace c && blank s'
  end.

Inductive value :=
  | VNone
  | VInt (z : Z)
  | VStr (s : string).

#[global] Instance value_eq_dec : EqDecision value.
Proof. solve_decision. Defined.

(** [str(v)] *)
Definition str (v : value) : string :=
  match v with
  | VNone => "None"
  | VInt z => pretty z
  | VStr s => s
  end.

(** Truth value of [v], as tested by [if v] and [not v]. *)
Definition truthy (v : value) : bool :=
  match v with
  | VNone => false
  | VInt z => negb (z =? 0)
  | VStr s => negb (String.eqb s "")
  end.

(** [pd.isna(v)] on a scalar of the modelled types. *)
Definition isna (v : value) : bool :=
  match v with VNone => true | _ => false end.

(** [v.strip() if isinstance(v, str) else v] *)
Definition strip_if_str (v : value) : value :=
  match v with
  | VStr s => VStr (strip s)
  | _ => v
  end.

End Py.

Import Py.

(** ** utils/common.py: progress normalisation *)

(** The dict literal [PROGRESS_MAPPING], in source order. *)
Definition PROGRESS_TABLE : list (string * string) :=
  [ ("done", "Done"); ("Done", "Done"); ("DONE", "Done");
    ("in progress", "In Progress"); ("In Progress", "In Progress");
    ("In progress", "In Progress"); ("IN PROGRESS", "In Progress");
    ("pending", "Pending"); ("Pending", "Pending"); ("PENDING", "Pending");
    ("block", "Blocked"); ("Block", "Blocked"); ("blocked", "Blocked");
    ("Blocked", "Blocked"); ("BLOCKED", "Blocked") ].

Definition PROGRESS_MAPPING : gmap string string := list_to_map PROGRESS_TABLE.

Definition PROGRESS_VALUES : list string :=
  ["Done"; "In Progress"; "Pending"; "Blocked"].

Definition normalize_progress (v : value) : string :=
  if isna v || bool_decide (v = VNone) then "Unknown"
  else
    let val := strip (str v) in
    default "Unknown" (PROGRESS_MAPPING !! val).

(** ASCII case conversions, used to name the case variants of a phrase. *)
Definition upper_char (c : ascii) : ascii :=
  let n := N_of_ascii c in
  if ((97 <=? n) && (n <=? 122))%N then ascii_of_N (n - 32) else c.

Definition lower_char (c : ascii) : ascii :=
  let n := N_of_ascii c in
  if ((65 <=? n) && (n <=? 90))%N then ascii_of_N (n + 32) else c.

Fixpoint map_chars (f : ascii -> ascii) (s : string) : string :=
  match s with
  | EmptyString => EmptyString
  | String c s' => String (f c) (map_chars f s')
  end.

Definition upper := map_chars upper_char.
Definition lower := map_chars lower_char.

(** ** utils/common.py: date parsing *)

(** The value [datetime.strptime] builds from a date-only format; the time
    part is midnight and is left out. *)
Record datetime := mk_datetime { year : Z; month : Z; day : Z }.

#[global] Instance datetime_eq_dec : EqDecision datetime.
Proof. solve_decision. Defined.

(** The library function [datetime.strptime] on formats made of the
    directives [%m], [%d], [%Y], [%y] and literal separators: the format is
    turned into a regular expression (one group per directive, alternatives
    tried left to right with backtracking), the match must consume the whole
    input, and the fields must form a calendar date. [None] stands for the
    [ValueError] the library raises. *)
Module Strptime.

Inductive directive := Dm | Dd | DY | Dy.

#[global] Instance directive_eq_dec : EqDecision directive.
Proof. solve_decision. Defined.

Inductive token :=
  | TDir (d : directive)
  | TLit (c : ascii).

Definition directive_of (c : ascii) : option directive :=
  if Ascii.eqb c "m" then Some Dm
  else if Ascii.eqb c "d" then Some Dd
  else if Ascii.eqb c "Y" then Some DY
  else if Ascii.eqb c "y" then Some Dy
  else None.

Fixpoint compile (fmt : string) : option (list token) :=
  match fmt with
  | EmptyString => Some []
  | String c rest =>
      if Ascii.eqb c "%" then
        match rest with
        | EmptyString => None
        | String k rest' =>
            match directive_of k, compile rest' with
            | Some d, Some ts => Some (TDir d :: ts)
            | _, _ => None
            end
        end
      else
        match compile rest with
        | Some ts => Some (TLit c :: ts)
        | None => None
        end
  end.

(** A character class [lo-hi]. *)
Definition class := (ascii * ascii)%type.

Definition in_class (c : ascii) (k : class) : bool :=
  ((N_of_ascii (fst k) <=? N_of_ascii c) && (N_of_ascii c <=? N_of_ascii (snd k)))%N.

Definition one (c : ascii) : class := (c, c).
Definition digit : class := ("0"%char, "9"%char).

(** The alternatives of each directive's group, in the library's order:
    [%m] is [1[0-2]|0[1-9]|[1-9]], [%d] is
    [3[0-1]|[1-2]\d|0[1-9]|[1-9]| [1-9]], [%Y] is [\d\d\d\d], [%y] is [\d\d]. *)
Definition alternatives (d : directive) : list (list class) :=
  match d with
  | Dm => [ [one "1"; ("0", "2")]; [one "0"; ("1", "9")]; [("1", "9")] ]
  | Dd => [ [one "3"; ("0", "1")]; [("1", "2"); digit]; [one "0"; ("1", "9")];
            [("1", "9")]; [one " "; ("1", "9")] ]
  | DY => [ [digit; digit; digit; digit] ]
  | Dy => [ [digit; digit] ]
  end%char.

(** Match a sequence of classes at the head of [s]: the matched text and
    the rest. *)
Fixpoint match_classes (ks : list class) (s : string) : option (string * string) :=
  match ks with
  | [] => Some (EmptyString, s)
  | k :: ks' =>
      match s with
      | EmptyString => None
      | String c s' =>
          if in_class c k then
            match match_classes ks' s' with
            | Some (m, r) => Some (String c m, r)
            | None => None
            end
          else None
      end
  end.

Definition fields := list (directive * string).

Section alternation.
Context (continue : string -> option (fields * string)) (d : directive).

(** First alternative of [d] after which the rest of the pattern matches. *)
Fixpoint first_alternative (alts : list (list class)) (s : string)
    : option (fields * string) :=
  match alts with
  | [] => None
  | alt :: alts' =>
      match match_classes alt s with
      | Some (m, r) =>
          match continue r with
          | Some (fs, rest) => Some ((d, m) :: fs, rest)
          | None => first_alternative alts' s
          end
      | None => first_alternative alts' s
      end
  end.
End alternation.

(** [re.match] of the compiled format: the fields found and the text left
    over after the match. *)
Fixpoint re_match (ts : list token) (s : string) : option (fields * string) :=
  match ts with
  | [] => Some ([], s)
  | TLit c :: ts' =>
      match s with
      | String c' s' => if Ascii.eqb c c' then re_match ts' s' else None
      | EmptyString => None
      end
  | TDir d :: ts' => first_alternative (re_match ts') d (alternatives d) s
  end.

(** [int(m)] on a matched field: decimal digits, a leading blank skipped. *)
Fixpoint int_of_digits (acc : Z) (m : string) : Z :=
  match m with
  | EmptyString => acc
  | String c m' =>
      if in_class c digit
      then int_of_digits (10 * acc + Z.of_N (N_of_ascii c - 48)) m'
      else int_of_digits acc m'
  end.

Definition field (d : directive) (fs : fields) : option Z :=
  match list_find (fun p => fst p = d) fs with
  | Some (_, (_, m)) => Some (int_of_digits 0 m)
  | None => None
  end.

Definition is_leap (y : Z) : bool :=
  (y mod 4 =? 0) && (negb (y mod 100 =? 0) || (y mod 400 =? 0)).

Definition days_in_month (y m : Z) : Z :=
  if m =? 2 then (if is_leap y then 29 else 28)
  else if (m =? 4) || (m =? 6) || (m =? 9) || (m =? 11) then 30
  else 31.

(** [datetime(y, m, d)] raises [ValueError] outside the calendar. *)
Definition valid_date (y m d : Z) : bool :=
  (1 <=? y) && (y <=? 9999) && (1 <=? m) && (m <=? 12)
  && (1 <=? d) && (d <=? days_in_month y m).

(** The year: [%Y] as written; [%y] in 2000-2068 for 00-68 and in
    1969-1999 for 69-99; 1900 when the format has no year. *)
Definition year_of (fs : fields) : Z :=
  match field Dy fs, field DY fs with
  | _, Some y => y
  | Some y, None => if y <=? 68 then y + 2000 else y + 1900
  | None, None => 1900
  end.

Definition strptime (data fmt : string) : option datetime :=
  match compile fmt with
  | None => None
  | Some ts =>
      match re_match ts data with
      | Some (fs, EmptyString) =>
          let y := year_of fs in
          let m := default 1 (field Dm fs) in
          let d := default 1 (field Dd fs) in
          if valid_date y m d then Some (mk_datetime y m d) else None
      | _ => None
      end
  end.

End Strptime.

Definition strptime := Strptime.strptime.

Definition DATE_FORMATS : list string :=
  ["%m/%d/%Y"; "%Y-%m-%d"; "%m/%d/%y"; "%d/%m/%Y"].

(** The loop [for fmt in DATE_FORMATS: try: return strptime(cleaned, fmt)
    except ValueError: continue], followed by [return None]. *)
Fixpoint try_formats (cleaned : string) (fmts : list string) : option datetime :=
  match fmts with
  | [] => None
  | fmt :: fmts' =>
      match strptime cleaned fmt with
      | Some dt => Some dt
      | None => try_formats cleaned fmts'
      end
  end.

Definition parse_date (date_str : value) : option datetime :=
  if isna date_str || negb (truthy date_str) then None
  else
    let cleaned := strip (str date_str) in
    try_formats cleaned DATE_FORMATS.

(** ** config.py: column mapping *)

(** The dict literal [COLUMN_MAPPING] (sheet column, table column), in
    source order. *)
Definition COLUMN_MAPPING : list (string * string) :=
  [ ("ID", "id"); ("Date", "date"); ("Channel / Chat", "channel");
    ("Original Source", "original_source"); ("Category", "category");
    ("Issue", "issue"); ("Owner", "owner");
    ("Reply / Approach", "reply_approach"); ("Progress", "progress");
    ("Result", "result"); ("Problem_Category", "problem_category") ].

Abbreviation dict := (gmap string value).

(** [d.get(key, "")] *)
Definition get (d : dict) (key : string) : value := default (VStr "") (d !! key).

(** ** scripts/sync_google_sheets.py: transform_data *)

(** The test [raw_id == "" or raw_id is None] on [row.get("ID", "")]. *)
Definition id_missing (row : dict) : bool :=
  let raw_id := get row "ID" in
  bool_decide (raw_id = VStr "") || bool_decide (raw_id = VNone).

(** The inner loop over [COLUMN_MAPPING.items()] building [item]. *)
Definition transform_row (row : dict) : dict :=
  foldl (fun (item : dict) '(sheet_col, db_col) =>
           <[db_col := strip_if_str (get row sheet_col)]> item)
        ∅ COLUMN_MAPPING.

(** The outer loop, carrying the locals [transformed] and [skipped]. *)
Fixpoint transform_loop (raw_data : list dict) (transformed : list dict) (skipped : nat)
    : list dict * nat :=
  match raw_data with
  | [] => (transformed, skipped)
  | row :: rest =>
      if id_missing row then transform_loop rest transformed (S skipped)
      else transform_loop rest (transformed ++ [transform_row row]) skipped
  end.

(** [transform_data] returns [transformed]; [skipped] is the count it logs. *)
Definition transform_data (raw_data : list dict) : list dict :=
  fst (transform_loop raw_data [] 0%nat).

Definition skipped_count (raw_data : list dict) : nat :=
  snd (transform_loop raw_data [] 0%nat).

(** ** Exceptions and the state of the world *)

(** An exception: its class and the text [str(e)] gives. Every exception of
    the model is an [Exception], so [except Exception] catches all of them. *)
Record exn := mk_exn { exn_class : string; exn_msg : string }.

#[global] Instance exn_eq_dec : EqDecision exn.
Proof. solve_decision. Defined.

Inductive outcome (A : Type) :=
  | Return (a : A)
  | Raise (e : exn).
Arguments Return {A} a.
Arguments Raise {A} e.

(** A stored issue: the ten TEXT columns, each NULL ([None]) or a text. The
    INTEGER PRIMARY KEY [id] is the key of the table. The columns
    [created_at] and [updated_at], filled from the store's clock, are left
    out. *)
Record issue_row := mk_issue_row {
  col_date : option string;
  col_channel : option string;
  col_original_source : option string;
  col_category : option string;
  col_issue : option string;
  col_owner : option string;
  col_reply_approach : option string;
  col_progress : option string;
  col_result : option string;
  col_problem_category : option string }.

#[global] Instance issue_row_eq_dec : EqDecision issue_row.
Proof. solve_decision. Defined.

(** A row of [sync_log]; its autoincrement id and timestamp are given by
    its position in the ledger. *)
Record sync_record := mk_sync_record {
  rows_synced : Z;
  status : string;
  message : string }.

Record database := mk_database {
  issues : gmap Z issue_row;
  sync_log : list sync_record }.

(** The world the pipeline runs in.
    - [committed]: the database file, as every reader sees it;
    - [work]: the view of the open connection, with its uncommitted changes
      (the code holds one connection at a time);
    - [io_fault n]: the fault, if any, that the storage raises at its [n]-th
      step (opening, a statement, a row of a bulk insert, a commit), and
      [io_steps], the steps taken so far;
    - [entropy n i]: the [i]-th random number the engine draws, should it
      need one, once [n] steps have been taken;
    - [remote n]: what the [n]-th call to the remote sheet gives, and
      [fetches], the calls made so far;
    - [slept]: the durations passed to [time.sleep], oldest first. *)
Record world := mk_world {
  committed : database;
  work : database;
  io_fault : nat -> option exn;
  io_steps : nat;
  remote : nat -> outcome (list dict);
  fetches : nat;
  slept : list Z;
  entropy : nat -> nat -> Z }.

Definition set_committed (d : database) (w : world) : world :=
  mk_world d (work w) (io_fault w) (io_steps w) (remote w) (fetches w) (slept w)
    (entropy w).
Definition set_work (d : database) (w : world) : world :=
  mk_world (committed w) d (io_fault w) (io_steps w) (remote w) (fetches w) (slept w)
    (entropy w).
Definition set_io_steps (n : nat) (w : world) : world :=
  mk_world (committed w) (work w) (io_fault w) n (remote w) (fetches w) (slept w)
    (entropy w).
Definition set_fetches (n : nat) (w : world) : world :=
  mk_world (committed w) (work w) (io_fault w) (io_steps w) (remote w) n (slept w)
    (entropy w).
Definition set_slept (l : list Z) (w : world) : world :=
  mk_world (committed w) (work w) (io_fault w) (io_steps w) (remote w) (fetches w) l
    (entropy w).

(** Code that can raise and that changes the world. *)
Definition M (A : Type) : Type := world -> outcome A * world.

Definition ret {A} (a : A) : M A := fun w => (Return a, w).
Definition raise {A} (e : exn) : M A := fun w => (Raise e, w).
Definition bind {A B} (m : M A) (k : A -> M B) : M B :=
  fun w =>
    match m w with
    | (Return a, w') => k a w'
    | (Raise e, w') => (Raise e, w')
    end.

(** [try: m except Exception as e: h e] *)
Definition try_except {A} (m : M A) (h : exn -> M A) : M A :=
  fun w =>
    match m w with
    | (Return a, w') => (Return a, w')
    | (Raise e, w') => h e w'
    end.

(** [try: m finally: f], for a clean-up [f] that cannot raise. *)
Definition try_finally {A} (m : M A) (f : world -> world) : M A :=
  fun w => let (r, w') := m w in (r, f w').

Declare Scope py_scope.
Delimit Scope py_scope with py.
Notation "x <- m ;; k" := (bind m (fun x => k))
  (at level 100, m at next level, right associativity) : py_scope.
Notation "m ;; k" := (bind m (fun _ => k))
  (at level 100, right associativity) : py_scope.
Local Open Scope py_scope.

(** ** utils/db.py: the storage layer *)

Section storage.

(** The store's coercion of a text to an INTEGER PRIMARY KEY: the integer
    the text denotes for the engine, if it denotes one. It belongs to the
    engine, not to this repository, and stays a parameter. *)
Context (rowid_of_text : string -> option Z).

(** One step of the storage engine: it raises the fault planned for this
    step, if there is one. *)
Definition io_step : M unit :=
  fun w =>
    let w' := set_io_steps (S (io_steps w)) w in
    match io_fault w (io_steps w) with
    | Some e => (Raise e, w')
    | None => (Return tt, w')
    end.

(** [sqlite3.connect(DATABASE_PATH)]: the new connection sees the committed
    database. *)
Definition sqlite3_connect : M unit :=
  io_step ;; fun w => (Return tt, set_work (committed w) w).

(** [conn.commit()] *)
Definition conn_commit : M unit :=
  io_step ;; fun w => (Return tt, set_committed (work w) w).

(** [conn.rollback()]: uncommitted changes are dropped. *)
Definition conn_rollback : M unit :=
  fun w => (Return tt, set_work (committed w) w).

(** [conn.close()]: uncommitted changes are dropped with the connection. *)
Definition conn_close (w : world) : world := set_work (committed w) w.

(** Binding a Python value to a statement parameter: an [int] outside 64
    bits raises [OverflowError]. *)
Definition bindable (v : value) : bool :=
  match v with
  | VInt z => (- 2 ^ 63 <=? z) && (z <? 2 ^ 63)
  | _ => true
  end.

Definition overflow_error : exn :=
  mk_exn "OverflowError" "Python int too large to convert to SQLite INTEGER".
Definition datatype_mismatch : exn := mk_exn "IntegrityError" "datatype mismatch".
Definition database_full : exn := mk_exn "OperationalError" "database or disk is full".
Definition wrong_bindings : exn :=
  mk_exn "ProgrammingError" "Incorrect number of bindings supplied".

(** What a TEXT column keeps of a bound value: NULL stays NULL, an integer
    becomes its decimal text. *)
Definition text_cell (v : value) : option string :=
  match v with
  | VNone => None
  | VInt z => Some (pretty z)
  | VStr s => Some s
  end.

Definition max_rowid (t : gmap Z issue_row) : option Z :=
  foldr (fun k acc => Some (match acc with Some m => Z.max k m | None => k end))
        None (fst <$> map_to_list t).

(** The engine's search for a key once the largest key is 2^63-1: it draws
    random numbers, brings each into 1..2^62, and takes the first that is
    not in use; after [tries] draws in vain it gives up. *)
Fixpoint random_rowid (t : gmap Z issue_row) (rand : nat -> Z) (i tries : nat)
    : option Z :=
  match tries with
  | O => None
  | S tries' =>
      let v := Z.land (rand i) (2 ^ 62 - 1) + 1 in
      match t !! v with
      | None => Some v
      | Some _ => random_rowid t rand (S i) tries'
      end
  end.

(** The key of a row inserted with [id] bound to [v]. NULL takes the
    largest key plus one (1 in an empty table); when the largest key is
    already 2^63-1 the engine tries up to 100 random keys, drawn from
    [rand], and the store is full when all of them are in use. A text that
    is not an integer for the engine is a datatype mismatch. *)
Definition rowid_for (t : gmap Z issue_row) (rand : nat -> Z) (v : value)
    : outcome Z :=
  match v with
  | VInt z => Return z
  | VNone =>
      match max_rowid t with
      | None => Return 1
      | Some m =>
          if m <? 2 ^ 63 - 1 then Return (m + 1)
          else
            match random_rowid t rand 0 100 with
            | Some k => Return k
            | None => Raise database_full
            end
      end
  | VStr s =>
      match rowid_of_text s with
      | Some z => Return z
      | None => Raise datatype_mismatch
      end
  end.

Definition columns : list string :=
  ["id"; "date"; "channel"; "original_source"; "category";
   "issue"; "owner"; "reply_approach"; "progress"; "result";
   "problem_category"].

(** [tuple(item.get(col, "") for col in columns)] *)
Definition row_tuple (item : dict) : list value := get item <$> columns.

(** The ten TEXT cells of a row, from the parameters after [id]. *)
Definition stored_row (cells : list value) : option issue_row :=
  match cells with
  | [d; ch; os; c; iss; o; ra; p; r; pc] =>
      Some (mk_issue_row (text_cell d) (text_cell ch) (text_cell os)
              (text_cell c) (text_cell iss) (text_cell o)
              (text_cell ra) (text_cell p) (text_cell r) (text_cell pc))
  | _ => None
  end.

(** [INSERT OR REPLACE INTO issues (columns) VALUES (?, ..., ?)] with one
    tuple of parameters, on the table [t], with [rand] the random numbers
    at the engine's disposal: the number of parameters is checked, then each
    is bound, then the row replaces the one with its key, if any. *)
Definition insert_or_replace (t : gmap Z issue_row) (rand : nat -> Z)
    (params : list value) : outcome (gmap Z issue_row) :=
  match params with
  | i :: cells =>
      match stored_row cells with
      | Some r =>
          if forallb bindable params then
            match rowid_for t rand i with
            | Return k => Return (<[k := r]> t)
            | Raise e => Raise e
            end
          else Raise overflow_error
      | None => Raise wrong_bindings
      end
  | [] => Raise wrong_bindings
  end.

Definition set_issues (t : gmap Z issue_row) (d : database) : database :=
  mk_database t (sync_log d).
Definition set_sync_log (l : list sync_record) (d : database) : database :=
  mk_database (issues d) l.

(** [cursor.execute("DELETE FROM issues")] *)
Definition execute_delete : M unit :=
  io_step ;; fun w => (Return tt, set_work (set_issues ∅ (work w)) w).

(** One row of the bulk insert. *)
Definition execute_insert (params : list value) : M unit :=
  io_step ;;
  fun w =>
    match insert_or_replace (issues (work w)) (entropy w (io_steps w)) params with
    | Return t => (Return tt, set_work (set_issues t (work w)) w)
    | Raise e => (Raise e, w)
    end.

(** [cursor.executemany(sql, rows)]: row after row, stopping at the first
    one that raises; the rows before it stay in the open transaction. *)
Fixpoint executemany (rows : list (list value)) : M unit :=
  match rows with
  | [] => ret tt
  | params :: rows' => execute_insert params ;; executemany rows'
  end.

(** The body of the [try] block of [safe_replace_issues]. *)
Definition replace_transaction (rows : list (list value)) : M Z :=
  execute_delete ;;
  executemany rows ;;
  conn_commit ;;
  ret (Z.of_nat (length rows)).

Definition safe_replace_issues (issues : list dict) : M Z :=
  if bool_decide (issues = []) then ret 0
  else
    let rows := row_tuple <$> issues in
    sqlite3_connect ;;
    try_finally
      (try_except (replace_transaction rows)
                  (fun e => conn_rollback ;; raise e))
      conn_close.

(** [log_sync]: [with get_connection() as conn] opens the connection and
    closes it on the way out; the INSERT binds [rows_synced], [status] and
    [message]. *)
Definition log_sync (rows_synced : Z) (status message : string) : M unit :=
  sqlite3_connect ;;
  try_finally
    (io_step ;;
     (if bindable (VInt rows_synced)
      then fun w =>
             (Return tt,
              set_work (set_sync_log (sync_log (work w)
                                      ++ [mk_sync_record rows_synced status message])
                                     (work w)) w)
      else raise overflow_error) ;;
     conn_commit)
    conn_close.

(** [init_database]: the directory and the connection, the CREATE and ALTER
    statements, the commit. The model keeps both tables in every database,
    so the statements change nothing; each of the three steps can fail. *)
Definition init_database : M unit :=
  (sqlite3_connect ;; io_step ;; conn_commit) ;;
  fun w => (Return tt, conn_close w).

(** *** Read operations, on the committed database *)

Definition cell_value (c : option string) : value :=
  match c with
  | None => VNone
  | Some s => VStr s
  end.

(** [dict(row)] for a row of [SELECT * FROM issues], on the eleven columns
    the program writes. The row's [created_at] and [updated_at] are left
    out with the two columns. *)
Definition row_dict (kr : Z * issue_row) : dict :=
  let r := snd kr in
  <["id" := VInt (fst kr)]>
  (<["date" := cell_value (col_date r)]>
  (<["channel" := cell_value (col_channel r)]>
  (<["original_source" := cell_value (col_original_source r)]>
  (<["category" := cell_value (col_category r)]>
  (<["issue" := cell_value (col_issue r)]>
  (<["owner" := cell_value (col_owner r)]>
  (<["reply_approach" := cell_value (col_reply_approach r)]>
  (<["progress" := cell_value (col_progress r)]>
  (<["result" := cell_value (col_result r)]>
  (<["problem_category" := cell_value (col_problem_category r)]> ∅)))))))))).

(** [ORDER BY id DESC] *)
Definition id_desc : relation (Z * issue_row) := fun a b => fst b <= fst a.

#[global] Instance id_desc_dec : RelDecision id_desc.
Proof. intros a b. unfold id_desc. apply _. Defined.

#[global] Instance id_desc_total : Total id_desc.
Proof. intros a b. unfold id_desc. lia. Qed.

#[global] Instance id_desc_transitive : Transitive id_desc.
Proof. intros a b c. unfold id_desc. lia. Qed.

Definition order_by_id_desc (t : gmap Z issue_row) : list (Z * issue_row) :=
  merge_sort id_desc (map_to_list t).

Definition get_all_issues (w : world) : list dict :=
  row_dict <$> order_by_id_desc (issues (committed w)).

Definition get_issues_count (w : world) : Z :=
  Z.of_nat (size (issues (committed w))).

(** [col = ?] and the range tests on a stored cell: a NULL cell satisfies
    none of them; texts compare character by character. *)
Definition sql_eq (c : option string) (p : string) : bool :=
  match c with
  | Some s => String.eqb s p
  | None => false
  end.
Definition sql_ge (c : option string) (p : string) : bool :=
  match c with
  | Some s => String.leb p s
  | None => false
  end.
Definition sql_le (c : option string) (p : string) : bool :=
  match c with
  | Some s => String.leb s p
  | None => false
  end.

(** [if arg: conditions.append(...)]: [None] and the empty string add no
    condition. *)
Definition condition (arg : option string) (test : string -> issue_row -> bool)
    : list (issue_row -> bool) :=
  match arg with
  | Some s => if truthy (VStr s) then [test s] else []
  | None => []
  end.

Definition filter_conditions
    (category progress owner date_from date_to problem_category : option string)
    : list (issue_row -> bool) :=
  condition category (fun p r => sql_eq (col_category r) p)
  ++ condition progress (fun p r => sql_eq (col_progress r) p)
  ++ condition owner (fun p r => sql_eq (col_owner r) p)
  ++ condition date_from (fun p r => sql_ge (col_date r) p)
  ++ condition date_to (fun p r => sql_le (col_date r) p)
  ++ condition problem_category (fun p r => sql_eq (col_problem_category r) p).

(** The rows of [SELECT * FROM issues WHERE ... ORDER BY id DESC], where the
    WHERE clause is the conjunction of [conditions] ([1=1] when empty). *)
Definition select_where (conditions : list (issue_row -> bool)) (w : world)
    : list dict :=
  row_dict <$>
    List.filter (fun kr => forallb (fun test => test (snd kr)) conditions)
                (order_by_id_desc (issues (committed w))).

Definition filter_issues
    (category progress owner date_from date_to problem_category : option string)
    (w : world) : list dict :=
  select_where
    (filter_conditions category progress owner date_from date_to problem_category) w.

(** ** scripts/sync_google_sheets.py: retry and pipeline *)

Definition MAX_RETRIES : nat := 3.
Definition BASE_DELAY : Z := 2.

(** [time.sleep(delay)] *)
Definition time_sleep (delay : Z) : M unit :=
  fun w => (Return tt, set_slept (slept w ++ [delay]) w).

(** The loop [for attempt in range(MAX_RETRIES)] on the attempts left. A
    loop that ends without returning makes the function return [None]. *)
Fixpoint retry_loop {A} (func : M A) (attempts : list nat) : M (option A) :=
  match attempts with
  | [] => ret None
  | attempt :: rest =>
      try_except
        (a <- func ;; ret (Some a))
        (fun e =>
           if bool_decide (attempt = (MAX_RETRIES - 1)%nat) then raise e
           else
             let delay := BASE_DELAY * 2 ^ Z.of_nat attempt in
             time_sleep delay ;; retry_loop func rest)
  end.

Definition retry_on_error {A} (func : M A) : M (option A) :=
  retry_loop func (seq 0 MAX_RETRIES).

(** The inner function [_connect_and_fetch] of [fetch_google_sheets_data]:
    one call to the remote sheet. *)
Definition _connect_and_fetch : M (list dict) :=
  fun w => (remote w (fetches w), set_fetches (S (fetches w)) w).

Definition fetch_google_sheets_data : M (option (list dict)) :=
  retry_on_error _connect_and_fetch.

Definition not_iterable : exn :=
  mk_exn "TypeError" "'NoneType' object is not iterable".

(** The body of the [try] block of [sync]. *)
Definition sync_body : M bool :=
  init_database ;;
  raw_data <- fetch_google_sheets_data ;;
  data <- match raw_data with
          | Some rows => ret (transform_data rows)
          | None => raise not_iterable
          end ;;
  count <- safe_replace_issues data ;;
  log_sync count "success" "Full sync completed" ;;
  ret true.

Definition sync : M bool :=
  try_except sync_body
    (fun e =>
       let error_msg := exn_msg e in
       log_sync 0 "failed" error_msg ;;
       ret false).

End storage.

(** ** utils/common.py: colours and styles *)

Definition PROGRESS_COLORS : gmap string string :=
  list_to_map
    [ ("Done", "#22c55e"); ("In Progress", "#f59e0b"); ("Pending", "#f97316");
      ("Blocked", "#ef4444"); ("Unknown", "#9ca3af") ].

Definition PROGRESS_STYLES : gmap string string :=
  list_to_map
    [ ("Done", "background-color: #dcfce7; color: #166534; font-weight: 600;");
      ("In Progress", "background-color: #fef3c7; color: #92400e; font-weight: 600;");
      ("Pending", "background-color: #fed7aa; color: #c2410c; font-weight: 600;");
      ("Blocked", "background-color: #fecaca; color: #991b1b; font-weight: 600;") ].

Definition style_progress (val : value) : string :=
  if isna val then ""
  else
    let norm_val := normalize_progress val in
    default "" (PROGRESS_STYLES !! norm_val).

(** ** config.py: the field list *)

(** [ALL_FIELDS = list(COLUMN_MAPPING.values())] *)
Definition ALL_FIELDS : list string := snd <$> COLUMN_MAPPING.

(** ** utils/db.py: the other write operations *)

Section storage_writes.

Context (rowid_of_text : string -> option Z).

(** [clear_issues]: [with get_connection() as conn] around the DELETE and
    the commit. *)
Definition clear_issues : M unit :=
  sqlite3_connect ;;
  try_finally (execute_delete ;; conn_commit) conn_close.

(** [insert_issues]: the bulk INSERT OR REPLACE without the DELETE. An
    exception leaves the [with] block through [conn.close()], with no
    commit. *)
Definition insert_issues (issues : list dict) : M Z :=
  if bool_decide (issues = []) then ret 0
  else
    sqlite3_connect ;;
    try_finally
      (let rows := row_tuple <$> issues in
       executemany rowid_of_text rows ;;
       conn_commit ;;
       ret (Z.of_nat (length rows)))
      conn_close.

End storage_writes.

(** ** utils/db.py: the other read operations *)

(** The engine's LIKE: [%] stands for any run of characters, [_] for one
    character, letters of the ASCII alphabet match in either case, and both
    texts end at their first NUL character. A pattern of more than 50000
    bytes is refused. *)
Module Like.

Fixpoint until_nul (s : string) : string :=
  match s with
  | EmptyString => EmptyString
  | String c s' => if (N_of_ascii c =? 0)%N then EmptyString else String c (until_nul s')
  end.

Definition same_char (c c' : ascii) : bool :=
  Ascii.eqb (lower_char c) (lower_char c').

Fixpoint pattern_compare (p s : string) : bool :=
  match p with
  | EmptyString => match s with EmptyString => true | _ => false end
  | String c p' =>
      if Ascii.eqb c "%" then
        (fix skip (s : string) : bool :=
           pattern_compare p' s
           || match s with
              | EmptyString => false
              | String _ s' => skip s'
              end) s
      else
        match s with
        | EmptyString => false
        | String c' s' =>
            (Ascii.eqb c "_" || same_char c c') && pattern_compare p' s'
        end
  end.

(** The bytes a text takes in the store (characters below 128 take one byte,
    the others two). *)
Fixpoint bytes (s : string) : Z :=
  match s with
  | EmptyString => 0
  | String c s' => (if (N_of_ascii c <? 128)%N then 1 else 2) + bytes s'
  end.

Definition PATTERN_LIMIT : Z := 50000.

(** [cell LIKE pattern] as a WHERE condition: a NULL cell does not satisfy
    it. *)
Definition like (pattern : string) (cell : option string) : bool :=
  match cell with
  | Some s => pattern_compare (until_nul pattern) (until_nul s)
  | None => false
  end.

End Like.

Definition pattern_too_complex : exn :=
  mk_exn "OperationalError" "LIKE or GLOB pattern too complex".

(** The six columns [search_issues] looks into, in the order of its WHERE
    clause. *)
Definition searched_columns : list (issue_row -> option string) :=
  [col_issue; col_category; col_channel; col_owner; col_reply_approach;
   col_problem_category].

(** [search_issues]: the engine refuses the pattern on the first row it
    tests, so a pattern over the limit raises unless the table is empty. *)
Definition search_issues (keyword : string) (w : world) : outcome (list dict) :=
  let pattern := "%" +:+ keyword +:+ "%" in
  let rows := order_by_id_desc (issues (committed w)) in
  if bool_decide (rows <> []) && (Like.PATTERN_LIMIT <? Like.bytes pattern)
  then Raise pattern_too_complex
  else
    Return (row_dict <$>
              List.filter
                (fun kr => existsb (fun col => Like.like pattern (col (snd kr)))
                                   searched_columns)
                rows).

(** The TEXT column of a given name. *)
Definition text_column (column : string) : option (issue_row -> option string) :=
  list_to_map (M := gmap string (issue_row -> option string))
    [ ("date", col_date); ("channel", col_channel);
      ("original_source", col_original_source); ("category", col_category);
      ("issue", col_issue); ("owner", col_owner);
      ("reply_approach", col_reply_approach); ("progress", col_progress);
      ("result", col_result); ("problem_category", col_problem_category) ]
  !! column.

(** [get_unique_values(column)] for [column] one of the ten TEXT columns:
    [SELECT DISTINCT column ... WHERE column IS NOT NULL AND column != ''
    ORDER BY column]. The name is pasted into the statement, so any other
    argument makes another statement; the model gives [None] there. *)
Definition get_unique_values (column : string) (w : world) : option (list string) :=
  match text_column column with
  | None => None
  | Some col =>
      let cells := omap (fun kr => col (snd kr)) (map_to_list (issues (committed w))) in
      let kept := List.filter (fun s => negb (String.eqb s "")) cells in
      Some (merge_sort String.le (remove_dups kept))
  end.

(** [SELECT key, COUNT( * ) FROM issues GROUP BY key] read into a dict: the
    number of rows per value of [key], NULL being a value ([None]). The
    order of the groups, which the dict keeps, is not modelled. *)
Definition count_by (key : issue_row -> option string) (rows : list issue_row)
    : gmap (option string) nat :=
  foldr (fun r m => <[key r := S (default 0%nat (m !! key r))]> m) ∅ rows.

Record statistics := mk_statistics {
  total : Z;
  by_progress : gmap (option string) nat;
  by_category : gmap (option string) nat;
  by_problem_category : gmap (option string) nat;
  by_owner : gmap (option string) nat }.

Definition get_statistics (w : world) : statistics :=
  let rows := snd <$> map_to_list (issues (committed w)) in
  mk_statistics
    (Z.of_nat (size (issues (committed w))))
    (count_by col_progress rows)
    (count_by col_category rows)
    (count_by col_problem_category
       (List.filter
          (fun r => match col_problem_category r with
                    | Some s => negb (String.eqb s "")
                    | None => false
                    end) rows))
    (count_by col_owner rows).

(** ** dashboard.py: the normalised progress counts of [render_metrics] *)

(** The loop over [stats["by_progress"].items()], on the items in the order
    the dict yields them. *)
Definition normalized_counts (items : list (option string * nat)) : gmap string nat :=
  foldl (fun (normalized_progress : gmap string nat) '(key, count) =>
           let norm_key := normalize_progress (cell_value key) in
           <[norm_key := (default 0 (normalized_progress !! norm_key) + count)%nat]>
             normalized_progress)
        ∅ items.

(** ** Notions used in the statements *)

(** A canonical row: an integer [id], and no integer in a TEXT column (a
    text, [None], or the column left out). *)
Definition canonical (item : dict) : Prop :=
  (exists k, get item "id" = VInt k)
  /\ forall col, col ∈ tail columns -> forall z, get item col <> VInt z.

(** The key and the cells under which a row with an integer [id] is
    stored. *)
Definition key_of (item : dict) : Z :=
  match get item "id" with
  | VInt k => k
  | _ => 0
  end.

Definition cells_of (item : dict) : issue_row :=
  mk_issue_row (text_cell (get item "date")) (text_cell (get item "channel"))
    (text_cell (get item "original_source")) (text_cell (get item "category"))
    (text_cell (get item "issue")) (text_cell (get item "owner"))
    (text_cell (get item "reply_approach")) (text_cell (get item "progress"))
    (text_cell (get item "result")) (text_cell (get item "problem_category")).

(** The issues table as far as the program writes it: under each id, the
    ten text cells. The engine's [created_at] and [updated_at], which it
    sets anew whenever a row is replaced, are no part of it. *)
Definition written_cells (w : world) : gmap Z issue_row := issues (committed w).

(** An argument of [filter_issues] that adds no condition. *)
Definition absent (arg : option string) : Prop := arg = None \/ arg = Some "".

(** A store that raises no fault, now or later. *)
Definition healthy (w : world) : Prop := forall n, io_fault w n = None.

(** A row the store takes whatever it holds: an integer id, and every
    integer in it within 64 bits. *)
Definition storable (item : dict) : Prop :=
  (exists k, get item "id" = VInt k)
  /\ forallb bindable (row_tuple item) = true.

(** [w'] differs from [w] at most in the database and in the count of
    storage steps: same faults to come, same sheet, no call to the sheet,
    no sleep, same random numbers. *)
Definition same_outside (w w' : world) : Prop :=
  io_fault w' = io_fault w /\ remote w' = remote w
  /\ fetches w' = fetches w /\ slept w' = slept w
  /\ entropy w' = entropy w.

(** Texts of the same length that are equal up to the case of ASCII
    letters. *)
Fixpoint same_text (a b : string) : bool :=
  match a, b with
  | EmptyString, EmptyString => true
  | String c a', String c' b' => Like.same_char c c' && same_text a' b'
  | _, _ => false
  end.

(** [keyword] occurs in [text], up to the case of ASCII letters. *)
Definition occurs_in (keyword text : string) : Prop :=
  exists pre mid post, text = pre +:+ mid +:+ post /\ same_text keyword mid = true.

(** A text with no [%], no [_] and no NUL character. *)
Fixpoint plain (s : string) : bool :=
  match s with
  | EmptyString => true
  | String c s' =>
      negb (Ascii.eqb c "%") && negb (Ascii.eqb c "_")
      && negb (N_of_ascii c =? 0)%N && plain s'
  end.

(** Worlds and rows for the examples. *)
Module Sample.

(** An engine that takes no text for an integer. *)
Definition no_text_ids : string -> option Z := fun _ => None.

Definition no_faults : nat -> option exn := fun _ => None.
Definition sheet_down : nat -> outcome (list dict) :=
  fun _ => Raise (mk_exn "APIError" "503").
Definition no_entropy : nat -> nat -> Z := fun _ _ => 0.

(** A healthy world whose issue table is [t]. *)
Definition world_with (t : gmap Z issue_row) : world :=
  mk_world (mk_database t []) (mk_database t []) no_faults 0 sheet_down 0 []
           no_entropy.

Definition row_of (s : string) : issue_row :=
  mk_issue_row (Some s) (Some s) (Some s) (Some s) (Some s)
               (Some s) (Some s) (Some s) (Some s) (Some s).

(** A row whose texts are all empty and whose date is NULL. *)
Definition blank_row : issue_row :=
  mk_issue_row None (Some "") (Some "") (Some "") (Some "")
               (Some "") (Some "") (Some "") (Some "") (Some "").

Definition item (i : value) (category : string) : dict :=
  <["id" := i]> (<["category" := VStr category]> ∅).

Definition disk_error : exn := mk_exn "OperationalError" "disk I/O error".

(** A world where the sheet is down and the store fails at its fourth
    step, the one after the three of [init_database]. *)
Definition ledger_down : world :=
  mk_world (mk_database ∅ []) (mk_database ∅ [])
           (fun n => if (n =? 3)%nat then Some disk_error else None) 0
           sheet_down 0 [] no_entropy.

(** [SAMPLE_ISSUES] of tests/test_db.py. *)
Definition sample_issue (i : Z) (date channel category issue owner progress
                         result problem_category : string) : dict :=
  list_to_map
    [ ("id", VInt i); ("date", VStr date); ("channel", VStr channel);
      ("original_source", VStr ""); ("category", VStr category);
      ("issue", VStr issue); ("owner", VStr owner); ("reply_approach", VStr "");
      ("progress", VStr progress); ("result", VStr result);
      ("problem_category", VStr problem_category) ].

Definition SAMPLE_ISSUES : list dict :=
  [ sample_issue 1 "01/23/2026" "rocm" "ROCm Issue" "Test issue 1" "Alice"
      "Done" "Resolved" "Setup/Drivers";
    sample_issue 2 "01/24/2026" "pytorch" "PyTorch Issue" "Test issue 2" "Bob"
      "In Progress" "" "Library/Build";
    sample_issue 3 "01/25/2026" "rocm" "Driver Issue" "Test issue 3" "Alice"
      "Pending" "" "Setup/Drivers" ].

End Sample.

(** * Properties *)

(** ** The repository's own tests, on the model *)

(** tests/test_common.py, [test_normalize_progress]. *)
Example test_normalize_progress :
  map normalize_progress
    [VStr "Done"; VStr "In Progress"; VStr "Pending"; VStr "Blocked";
     VStr "done"; VStr "DONE"; VStr "in progress"; VStr "pending"; VStr "block";
     VNone; VStr ""; VStr "random_value"; VStr "  Done  "]
  = ["Done"; "In Progress"; "Pending"; "Blocked";
     "Done"; "Done"; "In Progress"; "Pending"; "Blocked";
     "Unknown"; "Unknown"; "Unknown"; "Done"].
Proof. vm_compute. reflexivity. Qed.

(** The upper-case abbreviation is not in the table. *)
Example normalize_progress_upper_block :
  normalize_progress (VStr "BLOCK") = "Unknown".
Proof. vm_compute. reflexivity. Qed.

(** tests/test_common.py, [test_parse_date]. *)
Example test_parse_date :
  map parse_date
    [VStr "01/23/2026"; VStr "2026-01-23"; VStr "01/23/26";
     VNone; VStr ""; VStr "not a date"]
  = [Some (mk_datetime 2026 1 23); Some (mk_datetime 2026 1 23);
     Some (mk_datetime 2026 1 23); None; None; None].
Proof. vm_compute. reflexivity. Qed.

(** The library's edge cases: a blank before a one-digit day, days outside
    the month, leap years, trailing text, the two-digit year pivot. *)
Example strptime_edge_cases :
  map (fun s => strptime s "%m/%d/%Y")
    ["01/ 5/2026"; "02/30/2026"; "3/4/20261"; "1/32/2026"; "02/29/2024";
     "02/29/1900"; "1/2/0099"; "00/02/2026"]
  = [Some (mk_datetime 2026 1 5); None; None; None; Some (mk_datetime 2024 2 29);
     None; Some (mk_datetime 99 1 2); None]
  /\ map (fun s => strptime s "%Y-%m-%d")
       ["0000-01-01"; "2026-1-3"; "2026-01-35"; "2026-01-23 "]
     = [None; Some (mk_datetime 2026 1 3); None; None]
  /\ map (fun s => strptime s "%m/%d/%y") ["1/2/26"; "01/02/69"; "01/02/68"]
     = [Some (mk_datetime 2026 1 2); Some (mk_datetime 1969 1 2);
        Some (mk_datetime 2068 1 2)]
  /\ strptime "13/01/2026" "%d/%m/%Y" = Some (mk_datetime 2026 1 13).
Proof. vm_compute. auto. Qed.

(** tests/test_db.py, [test_safe_replace] and [test_statistics]: three rows
    in, then two. *)
Example test_safe_replace :
  let w1 := snd (safe_replace_issues Sample.no_text_ids Sample.SAMPLE_ISSUES
                   (Sample.world_with ∅)) in
  let r2 := safe_replace_issues Sample.no_text_ids (take 2 Sample.SAMPLE_ISSUES) w1 in
  get_issues_count w1 = 3 /\ fst r2 = Return 2 /\ get_issues_count (snd r2) = 2.
Proof. vm_compute. auto. Qed.

(** A [None] id once the largest key 2^63-1 is in use: the engine takes a
    key at random, so the key depends on the numbers it draws. *)
Example random_key_after_largest :
  let items := [Sample.item (VInt (2 ^ 63 - 1)) "a"; Sample.item VNone "b"] in
  let run (rand : Z) :=
    safe_replace_issues Sample.no_text_ids items
      (mk_world (mk_database ∅ []) (mk_database ∅ []) Sample.no_faults 0
                Sample.sheet_down 0 [] (fun _ _ => rand)) in
  fst (run 0) = Return 2
  /\ (fst <$> map_to_list (issues (committed (snd (run 0))))) = [2 ^ 63 - 1; 1]
  /\ (fst <$> map_to_list (issues (committed (snd (run 41))))) = [2 ^ 63 - 1; 42].
Proof. vm_compute. auto. Qed.

(** The scenario of the specification: three raw rows, the second without
    an ID. *)
Example transform_scenario :
  let raw_data : list dict :=
    [ {[ "ID" := VInt 1; "Progress" := VStr "done" ]};
      {[ "ID" := VStr ""; "Progress" := VStr "Done" ]};
      {[ "ID" := VInt 2; "Progress" := VStr " Blocked " ]} ] in
  length (transform_data raw_data) = 2%nat
  /\ skipped_count raw_data = 1%nat
  /\ (fun item => normalize_progress (get item "progress")) <$> transform_data raw_data
     = ["Done"; "Blocked"].
Proof. vm_compute. auto. Qed.

(** ** Stripping *)

Lemma rstrip_blank (r : string) : blank r = true -> rstrip r = EmptyString.
Proof.
  induction r as [|c r IH]; simpl; [done|].
  intros [Hc Hr]%andb_prop. rewrite (IH Hr), Hc. done.
Qed.

Lemma rstrip_app_blank (s r : string) :
  blank r = true -> rstrip (s +:+ r) = rstrip s.
Proof.
  intros Hr. induction s as [|c s IH]; simpl.
  - by apply rstrip_blank.
  - by rewrite IH.
Qed.

Lemma lstrip_blank_app (l s : string) :
  blank l = true -> lstrip (l +:+ s) = lstrip s.
Proof.
  induction l as [|c l IH]; simpl; [done|].
  intros [Hc Hl]%andb_prop. rewrite Hc. by apply IH.
Qed.

(** A text that starts and ends with a character that is not white space
    comes back from any padding. *)
Lemma strip_padded (l r : string) (c : ascii) (k : string) :
  blank l = true -> blank r = true ->
  isspace c = false -> rstrip (String c k) = String c k ->
  strip (l +:+ String c k +:+ r) = String c k.
Proof.
  intros Hl Hr Hc Hk. unfold strip.
  rewrite (lstrip_blank_app _ _ Hl).
  change (lstrip (String c k +:+ r)) with
    (if isspace c then lstrip (k +:+ r) else String c k +:+ r).
  rewrite Hc. by rewrite (rstrip_app_blank _ _ Hr).
Qed.

(** ** Progress normalisation *)

(** C3. [normalize_progress] is total; on every text of the variant table,
    however padded with white space, it gives the table's canonical value,
    one of Done, In Progress, Pending, Blocked; the table holds each
    canonical phrase in its standard, upper-case and lower-case spelling
    and the abbreviations block and Block; on every other input, the empty
    text and [None] among them, it gives Unknown. *)
Theorem normalize_progress_table :
  (forall k c l r,
      (k, c) ∈ PROGRESS_TABLE -> blank l = true -> blank r = true ->
      normalize_progress (VStr (l +:+ k +:+ r)) = c /\ c ∈ PROGRESS_VALUES)
  /\ (forall p, p ∈ PROGRESS_VALUES ->
        (p, p) ∈ PROGRESS_TABLE /\ (upper p, p) ∈ PROGRESS_TABLE
        /\ (lower p, p) ∈ PROGRESS_TABLE)
  /\ ("block", "Blocked") ∈ PROGRESS_TABLE /\ ("Block", "Blocked") ∈ PROGRESS_TABLE
  /\ (forall v, strip (str v) ∉ PROGRESS_TABLE.*1 -> normalize_progress v = "Unknown")
  /\ normalize_progress VNone = "Unknown"
  /\ normalize_progress (VStr "") = "Unknown".
Proof.
  split; [|split; [|split; [|split; [|split; [|split]]]]].
  - intros k c l r Hin Hl Hr. unfold normalize_progress, PROGRESS_TABLE in *.
    cbn [isna orb bool_decide str].
    rewrite bool_decide_eq_false_2 by discriminate.
    repeat (apply elem_of_cons in Hin as [Hin|Hin];
            [injection Hin as -> ->;
             erewrite strip_padded by (first [assumption | reflexivity]);
             split; [reflexivity | unfold PROGRESS_VALUES; set_solver] |]).
    by apply elem_of_nil in Hin.
  - intros p Hp. unfold PROGRESS_VALUES in Hp.
    repeat (apply elem_of_cons in Hp as [->|Hp];
            [unfold PROGRESS_TABLE; cbn; set_solver |]).
    by apply elem_of_nil in Hp.
  - unfold PROGRESS_TABLE. set_solver.
  - unfold PROGRESS_TABLE. set_solver.
  - intros v Hv. unfold normalize_progress.
    destruct (isna v || bool_decide (v = VNone)); [done|].
    cbn zeta. unfold PROGRESS_MAPPING.
    by rewrite (not_elem_of_list_to_map_1 _ _ Hv).
  - reflexivity.
  - reflexivity.
Qed.

(** ** Date parsing *)

Lemma try_formats_first (cleaned : string) (fmts : list string) :
  forall (i : nat) (fmt : string) (dt : datetime),
    fmts !! i = Some fmt ->
    strptime cleaned fmt = Some dt ->
    (forall (j : nat) (f : string),
        (j < i)%nat -> fmts !! j = Some f -> strptime cleaned f = None) ->
    try_formats cleaned fmts = Some dt.
Proof.
  induction fmts as [|f0 fmts IH]; intros i fmt dt Hi Hok Hbefore.
  - by rewrite lookup_nil in Hi.
  - destruct i as [|i]; simpl in *.
    + injection Hi as ->. by rewrite Hok.
    + rewrite (Hbefore 0%nat f0) by (done || lia).
      eapply (IH i); eauto.
      intros j f Hj Hf. apply (Hbefore (S j)); [lia | done].
Qed.

Lemma try_formats_none (cleaned : string) (fmts : list string) :
  (forall fmt, fmt ∈ fmts -> strptime cleaned fmt = None) ->
  try_formats cleaned fmts = None.
Proof.
  induction fmts as [|f0 fmts IH]; intros Hall; simpl; [done|].
  rewrite (Hall f0) by apply list_elem_of_here.
  apply IH. intros fmt Hin. apply Hall. by apply list_elem_of_further.
Qed.

Lemma parse_date_truthy (v : value) :
  truthy v = true -> parse_date v = try_formats (strip (str v)) DATE_FORMATS.
Proof.
  intros Hv. unfold parse_date. rewrite Hv.
  destruct v; [discriminate | done | done].
Qed.

(** C7. [parse_date] gives no date for [None] and for the empty text; on
    any other input it strips the text and tries the four formats
    month/day/4-digit year, year-month-day, month/day/2-digit year,
    day/month/4-digit year in that order, the first format that parses
    giving the result; so a text that parses as month/day/year is read that
    way whatever the day-first format would make of it, "01/02/2026" being
    the 2nd of January; a text that no format parses gives no date. *)
Theorem parse_date_priority :
  parse_date VNone = None
  /\ parse_date (VStr "") = None
  /\ DATE_FORMATS = ["%m/%d/%Y"; "%Y-%m-%d"; "%m/%d/%y"; "%d/%m/%Y"]
  /\ (forall v (i : nat) fmt dt,
        truthy v = true ->
        DATE_FORMATS !! i = Some fmt ->
        strptime (strip (str v)) fmt = Some dt ->
        (forall (j : nat) f, (j < i)%nat -> DATE_FORMATS !! j = Some f ->
                             strptime (strip (str v)) f = None) ->
        parse_date v = Some dt)
  /\ (forall s dt,
        s <> "" -> strptime (strip s) "%m/%d/%Y" = Some dt ->
        parse_date (VStr s) = Some dt)
  /\ (parse_date (VStr "01/02/2026") = Some (mk_datetime 2026 1 2)
      /\ strptime "01/02/2026" "%d/%m/%Y" = Some (mk_datetime 2026 2 1))
  /\ (forall v,
        (forall fmt, fmt ∈ DATE_FORMATS -> strptime (strip (str v)) fmt = None) ->
        parse_date v = None).
Proof.
  split; [reflexivity|]. split; [reflexivity|]. split; [reflexivity|].
  split; [|split; [|split]].
  - intros v i fmt dt Hv Hi Hok Hbefore.
    rewrite (parse_date_truthy v Hv). by eapply try_formats_first.
  - intros s dt Hs Hok.
    rewrite parse_date_truthy.
    + apply (try_formats_first _ _ 0%nat "%m/%d/%Y"); [done | done |].
      intros j f Hj. lia.
    + simpl. destruct s; [done | reflexivity].
  - split; vm_compute; reflexivity.
  - intros v Hnone. unfold parse_date.
    destruct (isna v || negb (truthy v)); [done|].
    by apply try_formats_none.
Qed.

(** ** Retry with backoff *)

Lemma connect_and_fetch_slept (w : world) :
  slept (snd (_connect_and_fetch w)) = slept w.
Proof. reflexivity. Qed.

Lemma retry_loop_return {A} (func : M A) attempt rest w a w' :
  func w = (Return a, w') ->
  retry_loop func (attempt :: rest) w = (Return (Some a), w').
Proof. intros H. cbn [retry_loop]. unfold try_except, bind. by rewrite H. Qed.

Lemma retry_loop_backoff {A} (func : M A) attempt rest w e w' :
  func w = (Raise e, w') ->
  attempt <> (MAX_RETRIES - 1)%nat ->
  retry_loop func (attempt :: rest) w
  = retry_loop func rest (snd (time_sleep (BASE_DELAY * 2 ^ Z.of_nat attempt) w')).
Proof.
  intros H Hne. cbn [retry_loop]. unfold try_except at 1. unfold bind at 1.
  rewrite H. by rewrite bool_decide_eq_false_2.
Qed.

Lemma retry_loop_give_up {A} (func : M A) attempt rest w e w' :
  func w = (Raise e, w') ->
  attempt = (MAX_RETRIES - 1)%nat ->
  retry_loop func (attempt :: rest) w = (Raise e, w').
Proof.
  intros H Heq. cbn [retry_loop]. unfold try_except at 1. unfold bind at 1.
  rewrite H. by rewrite bool_decide_eq_true_2.
Qed.

(** C4. When the wrapped operation raises on each of its three calls,
    [retry_on_error] sleeps 2 seconds after the first failure and 4 seconds
    after the second, makes the third call, and re-raises the third
    exception in the state that call left: two sleeps, none after the last
    failure. For an operation that does not sleep itself the sleep log
    grows by exactly [2; 4]. *)
Theorem retry_on_error_three_failures {A} (func : M A)
    (w0 w1 w2 w3 : world) (e1 e2 e3 : exn) :
  func w0 = (Raise e1, w1) ->
  func (snd (time_sleep (BASE_DELAY * 2 ^ 0) w1)) = (Raise e2, w2) ->
  func (snd (time_sleep (BASE_DELAY * 2 ^ 1) w2)) = (Raise e3, w3) ->
  retry_on_error func w0 = (Raise e3, w3)
  /\ BASE_DELAY * 2 ^ 0 = 2 /\ BASE_DELAY * 2 ^ 1 = 4
  /\ ((forall w, slept (snd (func w)) = slept w) ->
      slept w3 = slept w0 ++ [2; 4]).
Proof.
  intros H1 H2 H3. split; [|split; [done|split; [done|]]].
  - unfold retry_on_error. change (seq 0 MAX_RETRIES) with [0; 1; 2]%nat.
    rewrite (retry_loop_backoff _ _ _ _ _ _ H1) by (cbn; lia).
    rewrite (retry_loop_backoff _ _ _ _ _ _ H2) by (cbn; lia).
    by rewrite (retry_loop_give_up _ _ _ _ _ _ H3).
  - intros Hquiet.
    pose proof (Hquiet w0) as Q1. rewrite H1 in Q1.
    pose proof (Hquiet (snd (time_sleep (BASE_DELAY * 2 ^ 0) w1))) as Q2.
    rewrite H2 in Q2.
    pose proof (Hquiet (snd (time_sleep (BASE_DELAY * 2 ^ 1) w2))) as Q3.
    rewrite H3 in Q3.
    cbn in Q1, Q2, Q3. rewrite Q3, Q2, Q1, <- app_assoc. reflexivity.
Qed.

(** ** The storage layer *)

Section storage_properties.

Context (rowid_of_text : string -> option Z).

Lemma io_step_frame (w w' : world) (r : outcome unit) :
  io_step w = (r, w') -> committed w' = committed w /\ work w' = work w.
Proof. unfold io_step. intros H. destruct (io_fault w (io_steps w)); by injection H as <- <-. Qed.

Lemma sqlite3_connect_frame (w w' : world) (r : outcome unit) :
  sqlite3_connect w = (r, w') -> committed w' = committed w.
Proof.
  unfold sqlite3_connect, bind. intros H.
  destruct (io_step w) as [[[]|e] w1] eqn:E; apply io_step_frame in E as [Ec _];
    injection H as <- <-; done.
Qed.

Lemma execute_delete_frame (w w' : world) (r : outcome unit) :
  execute_delete w = (r, w') -> committed w' = committed w.
Proof.
  unfold execute_delete, bind. intros H.
  destruct (io_step w) as [[[]|e] w1] eqn:E; apply io_step_frame in E as [Ec _];
    injection H as <- <-; done.
Qed.

Lemma execute_insert_frame (params : list value) (w w' : world) (r : outcome unit) :
  execute_insert rowid_of_text params w = (r, w') -> committed w' = committed w.
Proof.
  unfold execute_insert, bind. intros H.
  destruct (io_step w) as [[[]|e] w1] eqn:E; apply io_step_frame in E as [Ec _].
  - destruct (insert_or_replace _ _ _); injection H as <- <-; done.
  - injection H as <- <-; done.
Qed.

Lemma executemany_frame (rows : list (list value)) :
  forall (w w' : world) (r : outcome unit),
    executemany rowid_of_text rows w = (r, w') -> committed w' = committed w.
Proof.
  induction rows as [|params rows IH]; intros w w' r H; cbn [executemany] in H.
  - by injection H as <- <-.
  - unfold bind in H.
    destruct (execute_insert _ params w) as [[[]|e] w1] eqn:E;
      apply execute_insert_frame in E.
    + apply IH in H. congruence.
    + injection H as <- <-. done.
Qed.

Lemma conn_commit_raise (w w' : world) (e : exn) :
  conn_commit w = (Raise e, w') -> committed w' = committed w.
Proof.
  unfold conn_commit, bind. intros H.
  destruct (io_step w) as [[[]|e1] w1] eqn:E; apply io_step_frame in E as [Ec _].
  - discriminate.
  - by injection H as <- <-.
Qed.

(** A failed transaction has committed nothing. *)
Lemma replace_transaction_raise (rows : list (list value)) (w w' : world) (e : exn) :
  replace_transaction rowid_of_text rows w = (Raise e, w') ->
  committed w' = committed w.
Proof.
  unfold replace_transaction. intros H. unfold bind at 1 in H.
  destruct (execute_delete w) as [[[]|e1] w1] eqn:E1; apply execute_delete_frame in E1.
  2: { injection H as <- <-. done. }
  unfold bind at 1 in H.
  destruct (executemany _ rows w1) as [[[]|e2] w2] eqn:E2; apply executemany_frame in E2.
  2: { injection H as <- <-. congruence. }
  unfold bind at 1 in H.
  destruct (conn_commit w2) as [[[]|e3] w3] eqn:E3.
  - discriminate.
  - apply conn_commit_raise in E3. injection H as <- <-. congruence.
Qed.

Lemma executemany_raise_at (pre post : list (list value)) (params : list value) (e : exn) :
  forall w w1 w2,
    executemany rowid_of_text pre w = (Return tt, w1) ->
    execute_insert rowid_of_text params w1 = (Raise e, w2) ->
    executemany rowid_of_text (pre ++ params :: post) w = (Raise e, w2).
Proof.
  induction pre as [|p pre IH]; intros w w1 w2 Hpre Hins; cbn [executemany app] in *.
  - injection Hpre as <-. unfold bind. by rewrite Hins.
  - unfold bind in *.
    destruct (execute_insert _ p w) as [[[]|e1] w'] eqn:E; [|discriminate].
    by eapply IH.
Qed.

(** What [safe_replace_issues] does with the outcome of its transaction. *)
Lemma safe_replace_unfold (issues : list dict) (w w1 : world) :
  issues <> [] ->
  sqlite3_connect w = (Return tt, w1) ->
  safe_replace_issues rowid_of_text issues w =
    match replace_transaction rowid_of_text (row_tuple <$> issues) w1 with
    | (Return n, w2) => (Return n, conn_close w2)
    | (Raise e, w2) => (Raise e, conn_close (set_work (committed w2) w2))
    end.
Proof.
  intros Hne Hc. unfold safe_replace_issues.
  rewrite bool_decide_eq_false_2 by done.
  unfold bind at 1. rewrite Hc. unfold try_finally, try_except.
  destruct (replace_transaction _ _ w1) as [[n|e] w2]; reflexivity.
Qed.

Lemma safe_replace_raise_intact (issues : list dict) (w w' : world) (e : exn) :
  safe_replace_issues rowid_of_text issues w = (Raise e, w') -> committed w' = committed w.
Proof.
  intros H. unfold safe_replace_issues in H. case_bool_decide; [discriminate|].
  unfold bind at 1 in H.
  destruct (sqlite3_connect w) as [[[]|e1] w1] eqn:E1; apply sqlite3_connect_frame in E1.
  2: { injection H as <- <-. done. }
  unfold try_finally, try_except in H.
  destruct (replace_transaction _ _ w1) as [[n|e2] w2] eqn:E2; [discriminate|].
  apply replace_transaction_raise in E2.
  injection H as <- <-. cbn. congruence.
Qed.

(** C1. On a non-empty list of rows, whenever [safe_replace_issues] raises,
    the committed database is the one it started from; and a failure of
    the DELETE, of any row of the bulk insert (the rows before it having
    been inserted), or of the commit is re-raised to the caller as it
    is. *)
Theorem safe_replace_issues_rollback (issues : list dict) (w : world) :
  issues <> [] ->
  (forall e w',
      safe_replace_issues rowid_of_text issues w = (Raise e, w') ->
      committed w' = committed w)
  /\ (forall w1, sqlite3_connect w = (Return tt, w1) ->
        (forall e w2,
            execute_delete w1 = (Raise e, w2) ->
            exists w', safe_replace_issues rowid_of_text issues w = (Raise e, w')
                       /\ committed w' = committed w)
        /\ (forall w2 pre params post w3 e w4,
              execute_delete w1 = (Return tt, w2) ->
              row_tuple <$> issues = pre ++ params :: post ->
              executemany rowid_of_text pre w2 = (Return tt, w3) ->
              execute_insert rowid_of_text params w3 = (Raise e, w4) ->
              exists w', safe_replace_issues rowid_of_text issues w = (Raise e, w')
                         /\ committed w' = committed w)
        /\ (forall w2 w3 e w4,
              execute_delete w1 = (Return tt, w2) ->
              executemany rowid_of_text (row_tuple <$> issues) w2 = (Return tt, w3) ->
              conn_commit w3 = (Raise e, w4) ->
              exists w', safe_replace_issues rowid_of_text issues w = (Raise e, w')
                         /\ committed w' = committed w)).
Proof.
  intros Hne. split; [intros e w'; apply safe_replace_raise_intact|].
  intros w1 Hc.
  assert (forall e w2,
             replace_transaction rowid_of_text (row_tuple <$> issues) w1 = (Raise e, w2) ->
             exists w', safe_replace_issues rowid_of_text issues w = (Raise e, w')
                        /\ committed w' = committed w) as Hraise.
  { intros e w2 Ht. eexists. split.
    - rewrite (safe_replace_unfold issues w w1 Hne Hc), Ht. reflexivity.
    - cbn. apply replace_transaction_raise in Ht.
      apply sqlite3_connect_frame in Hc. congruence. }
  split; [|split].
  - intros e w2 Hd. apply (Hraise e w2).
    unfold replace_transaction. unfold bind at 1. by rewrite Hd.
  - intros w2 pre params post w3 e w4 Hd Hrows Hpre Hins. apply (Hraise e w4).
    unfold replace_transaction. unfold bind at 1. rewrite Hd.
    unfold bind at 1. rewrite Hrows.
    by rewrite (executemany_raise_at pre post params e w2 w3 w4 Hpre Hins).
  - intros w2 w3 e w4 Hd Hrows Hcommit. apply (Hraise e w4).
    unfold replace_transaction. unfold bind at 1. rewrite Hd.
    unfold bind at 1. rewrite Hrows.
    unfold bind at 1. by rewrite Hcommit.
Qed.

(** C5. On the empty list [safe_replace_issues] returns 0 and changes
    nothing: no storage step is taken and no row is deleted. *)
Theorem safe_replace_issues_empty (w : world) :
  safe_replace_issues rowid_of_text [] w = (Return 0, w)
  /\ get_all_issues (snd (safe_replace_issues rowid_of_text [] w)) = get_all_issues w
  /\ get_issues_count (snd (safe_replace_issues rowid_of_text [] w))
     = get_issues_count w.
Proof.
  assert (safe_replace_issues rowid_of_text [] w = (Return 0, w)) as Hnoop.
  { unfold safe_replace_issues. by rewrite bool_decide_eq_true_2. }
  rewrite Hnoop. split; [reflexivity|]. split; reflexivity.
Qed.

(** *** A successful replace *)

Lemma io_step_return (w w' : world) :
  io_step w = (Return tt, w') -> w' = set_io_steps (S (io_steps w)) w.
Proof. unfold io_step. destruct (io_fault w (io_steps w)); intros H; by injection H. Qed.

Lemma execute_insert_return (item : dict) (k : Z) (w w' : world) :
  get item "id" = VInt k ->
  execute_insert rowid_of_text (row_tuple item) w = (Return tt, w') ->
  issues (work w') = <[k := cells_of item]> (issues (work w))
  /\ sync_log (work w') = sync_log (work w).
Proof.
  intros Hid. unfold execute_insert, bind.
  destruct (io_step w) as [[[]|e] w1] eqn:E; [|discriminate].
  apply io_step_return in E as ->.
  change (row_tuple item) with
    [get item "id"; get item "date"; get item "channel";
     get item "original_source"; get item "category"; get item "issue";
     get item "owner"; get item "reply_approach"; get item "progress";
     get item "result"; get item "problem_category"].
  unfold insert_or_replace. cbn [stored_row].
  destruct (forallb bindable _); [|discriminate].
  rewrite Hid. cbn [rowid_for]. intros H. injection H as <-. done.
Qed.

Lemma executemany_return (items : list dict) :
  forall (w w' : world),
    Forall (fun item => exists k, get item "id" = VInt k) items ->
    executemany rowid_of_text (row_tuple <$> items) w = (Return tt, w') ->
    issues (work w')
    = foldl (fun t item => <[key_of item := cells_of item]> t) (issues (work w)) items
    /\ sync_log (work w') = sync_log (work w).
Proof.
  induction items as [|item items IH]; intros w w' Hids H.
  - cbn in H. by injection H as <-.
  - apply Forall_cons in Hids as [[k Hk] Hids].
    cbn [fmap list_fmap executemany] in H. unfold bind in H.
    destruct (execute_insert _ (row_tuple item) w) as [[[]|e] w1] eqn:E; [|discriminate].
    apply (execute_insert_return item k) in E as [Ei El]; [|done].
    apply IH in H as [Hi Hl]; [|done].
    split; [|congruence].
    rewrite Hi, Ei. cbn [foldl]. unfold key_of. by rewrite Hk.
Qed.

Lemma foldl_insert_other (items : list dict) (k : Z) :
  forall t : gmap Z issue_row,
    k ∉ key_of <$> items ->
    foldl (fun t item => <[key_of item := cells_of item]> t) t items !! k = t !! k.
Proof.
  induction items as [|item items IH]; intros t Hk; [done|].
  cbn [foldl]. rewrite fmap_cons in Hk. apply not_elem_of_cons in Hk as [Hne Hk].
  rewrite IH by done. by rewrite lookup_insert_ne.
Qed.

Lemma foldl_insert_distinct (items : list dict) :
  forall t : gmap Z issue_row,
    NoDup (key_of <$> items) ->
    (forall item, item ∈ items -> t !! key_of item = None) ->
    size (foldl (fun t item => <[key_of item := cells_of item]> t) t items)
    = (size t + length items)%nat
    /\ forall item, item ∈ items ->
         foldl (fun t item => <[key_of item := cells_of item]> t) t items
           !! key_of item = Some (cells_of item).
Proof.
  induction items as [|item items IH]; intros t Hnd Hfresh.
  - split; [cbn; lia | intros item Hin; by apply elem_of_nil in Hin].
  - rewrite fmap_cons in Hnd. apply NoDup_cons in Hnd as [Hk Hnd].
    cbn [foldl].
    destruct (IH (<[key_of item := cells_of item]> t)) as [Hsize Hlook]; [done| |].
    { intros item' Hin. rewrite lookup_insert_ne.
      - apply Hfresh. by apply list_elem_of_further.
      - intros Heq. apply Hk. rewrite Heq. by apply list_elem_of_fmap_2. }
    split.
    + rewrite Hsize, map_size_insert_None by (apply Hfresh, list_elem_of_here).
      cbn [length]. lia.
    + intros item' [->|Hin]%elem_of_cons; [|by apply Hlook].
      rewrite foldl_insert_other by done. apply lookup_insert_eq.
Qed.

Lemma safe_replace_return (items : list dict) (w w' : world) (n : Z) :
  items <> [] ->
  safe_replace_issues rowid_of_text items w = (Return n, w') ->
  n = Z.of_nat (length items)
  /\ exists w2 w3,
       issues (work w2) = ∅
       /\ sync_log (work w2) = sync_log (committed w)
       /\ executemany rowid_of_text (row_tuple <$> items) w2 = (Return tt, w3)
       /\ committed w' = work w3.
Proof.
  intros Hne H. unfold safe_replace_issues in H.
  rewrite bool_decide_eq_false_2 in H by done.
  unfold bind at 1 in H. unfold sqlite3_connect in H. unfold bind at 1 in H.
  destruct (io_step w) as [[[]|e] w0] eqn:E0; [|discriminate].
  apply io_step_return in E0 as ->.
  unfold try_finally, try_except, replace_transaction in H.
  unfold bind at 1 in H. unfold execute_delete in H. unfold bind at 1 in H.
  match type of H with context [io_step ?x] =>
    destruct (io_step x) as [[[]|e] w1] eqn:E1; [|discriminate] end.
  apply io_step_return in E1 as ->.
  unfold bind at 1 in H.
  match type of H with context [executemany _ _ ?x] =>
    destruct (executemany rowid_of_text (row_tuple <$> items) x) as [[[]|e] w3] eqn:E3;
    [|discriminate] end.
  unfold bind at 1 in H. unfold conn_commit in H. unfold bind at 1 in H.
  destruct (io_step w3) as [[[]|e] w4] eqn:E4; [|discriminate].
  apply io_step_return in E4 as ->.
  injection H as <- <-.
  split; [by rewrite length_fmap|].
  eexists _, w3. split; [|split; [|split; [exact E3|]]]; reflexivity.
Qed.

(** *** Reading back *)

Lemma order_by_id_desc_perm (t : gmap Z issue_row) :
  order_by_id_desc t ≡ₚ map_to_list t.
Proof. apply merge_sort_Permutation. Qed.

Lemma elem_of_order_by_id_desc (t : gmap Z issue_row) (k : Z) (r : issue_row) :
  (k, r) ∈ order_by_id_desc t <-> t !! k = Some r.
Proof. rewrite order_by_id_desc_perm. apply elem_of_map_to_list. Qed.

Lemma length_get_all_issues (w : world) :
  length (get_all_issues w) = size (issues (committed w)).
Proof.
  unfold get_all_issues.
  by rewrite length_fmap, order_by_id_desc_perm, length_map_to_list.
Qed.

Lemma strictly_descending (l : list (Z * issue_row)) :
  StronglySorted id_desc l -> NoDup l.*1 ->
  StronglySorted (fun a b => b < a) l.*1.
Proof.
  induction 1 as [|a l Hl IH Ha]; intros Hnd; cbn; [constructor|].
  apply NoDup_cons in Hnd as [Hfresh Hnd].
  constructor; [by apply IH|].
  apply Forall_fmap, Forall_forall. intros b Hb. cbn.
  rewrite Forall_forall in Ha. specialize (Ha b Hb). unfold id_desc in Ha.
  assert (b.1 <> a.1); [|lia].
  intros Heq. apply Hfresh. rewrite <- Heq. by apply list_elem_of_fmap_2.
Qed.

Lemma row_dict_round_trip (item : dict) (k : Z) (col : string) :
  get item "id" = VInt k ->
  (forall c, c ∈ tail columns -> forall z, get item c <> VInt z) ->
  col ∈ columns ->
  row_dict (k, cells_of item) !! col = Some (get item col).
Proof.
  intros Hid Htext Hcol. unfold columns in Hcol.
  apply elem_of_cons in Hcol as [->|Hcol]; [by rewrite Hid|].
  specialize (Htext col Hcol).
  assert (cell_value (text_cell (get item col)) = get item col) as Hcell.
  { destruct (get item col) as [|z|s]; [done | by destruct (Htext z) | done]. }
  cbn [tail columns] in Hcol.
  repeat (apply elem_of_cons in Hcol as [->|Hcol]; [by rewrite <- Hcell|]).
  by apply elem_of_nil in Hcol.
Qed.

(** C8, as the code has it. After a successful [safe_replace_issues] on a
    non-empty list of canonical rows (an integer id, no integer in a text
    column) whose ids are pairwise distinct, the value returned and the
    count of [get_issues_count] are the length of the list, the table holds
    that many rows, and every row reads back with each of its eleven
    fields as written (a field left out reading back as the empty
    text). *)
Theorem safe_replace_issues_round_trip (items : list dict) (w w' : world) (n : Z) :
  items <> [] ->
  Forall canonical items ->
  NoDup ((fun item => get item "id") <$> items) ->
  safe_replace_issues rowid_of_text items w = (Return n, w') ->
  n = Z.of_nat (length items)
  /\ get_issues_count w' = Z.of_nat (length items)
  /\ length (get_all_issues w') = length items
  /\ forall item, item ∈ items ->
       exists d, d ∈ get_all_issues w'
                 /\ forall col, col ∈ columns -> d !! col = Some (get item col).
Proof.
  intros Hne Hcan Hnd H.
  apply safe_replace_return in H as (-> & w2 & w3 & Hempty & _ & Hmany & Hcommit);
    [|done].
  assert (Forall (fun item => exists k, get item "id" = VInt k) items) as Hids.
  { eapply Forall_impl; [exact Hcan|]. by intros item [Hk _]. }
  apply executemany_return in Hmany as [Ht _]; [|done].
  rewrite Hempty in Ht.
  assert (NoDup (key_of <$> items)) as Hkeys.
  { apply (NoDup_fmap_2_strong key_of); [|by eapply NoDup_fmap_1].
    intros x y Hx Hy Hxy.
    rewrite Forall_forall in Hids.
    destruct (Hids x Hx) as [kx Hkx], (Hids y Hy) as [ky Hky].
    unfold key_of in Hxy. rewrite Hkx, Hky in Hxy. subst ky.
    rewrite <- Hky in Hkx.
    apply list_elem_of_lookup in Hx as [i Hi], Hy as [j Hj].
    assert (i = j) as ->; [|congruence].
    eapply (NoDup_lookup _ _ _ _ Hnd); rewrite list_lookup_fmap.
    - by rewrite Hi.
    - rewrite Hj. cbn. by rewrite Hkx. }
  destruct (foldl_insert_distinct items ∅ Hkeys) as [Hsize Hlook].
  { intros item _. apply lookup_empty. }
  rewrite <- Ht, <- Hcommit in Hsize, Hlook. rewrite map_size_empty in Hsize.
  split; [done|]. split; [unfold get_issues_count; by rewrite Hsize|].
  split; [by rewrite length_get_all_issues, Hsize|].
  intros item Hin.
  rewrite Forall_forall in Hcan. destruct (Hcan item Hin) as [[k Hk] Htext].
  exists (row_dict (k, cells_of item)). split.
  - unfold get_all_issues. apply list_elem_of_fmap_2.
    apply elem_of_order_by_id_desc.
    specialize (Hlook item Hin). unfold key_of in Hlook. by rewrite Hk in Hlook.
  - intros col Hcol. by apply row_dict_round_trip.
Qed.

(** C9, as the code has it. [get_all_issues] lists the committed rows, each
    once, by strictly descending id: the largest id comes first, whatever
    the order in which the rows were inserted. *)
Theorem get_all_issues_descending (w : world) :
  exists l : list (Z * issue_row),
    get_all_issues w = row_dict <$> l
    /\ StronglySorted (fun a b => b < a) l.*1
    /\ (forall k r, (k, r) ∈ l <-> issues (committed w) !! k = Some r)
    /\ length l = size (issues (committed w))
    /\ (fun d : dict => d !! "id") <$> get_all_issues w = (fun k => Some (VInt k)) <$> l.*1.
Proof.
  exists (order_by_id_desc (issues (committed w))).
  split; [done|]. split; [|split; [|split]].
  - apply strictly_descending.
    + apply StronglySorted_merge_sort; apply _.
    + rewrite order_by_id_desc_perm. apply NoDup_fst_map_to_list.
  - intros k r. apply elem_of_order_by_id_desc.
  - by rewrite order_by_id_desc_perm, length_map_to_list.
  - unfold get_all_issues. rewrite <- !list_fmap_compose.
    apply list_fmap_ext. by intros i [k r] _.
Qed.

(** *** Filtering *)

Lemma condition_absent (arg : option string) (test : string -> issue_row -> bool) :
  absent arg -> condition arg test = [].
Proof. by intros [-> | ->]. Qed.

Lemma condition_same (a a' : option string) (test : string -> issue_row -> bool) :
  a = a' \/ absent a /\ absent a' -> condition a test = condition a' test.
Proof. intros [-> | [H H']]; [done|]. by rewrite !condition_absent. Qed.

Lemma condition_blank_row (arg : option string) (test : string -> issue_row -> bool) :
  (forall s, s <> "" -> test s Sample.blank_row = false) ->
  Forall (fun t => t Sample.blank_row = false) (condition arg test).
Proof.
  intros Htest. destruct arg as [s|]; cbn; [|constructor].
  destruct (String.eqb_spec s ""); cbn; [constructor|].
  constructor; [by apply Htest | constructor].
Qed.

Lemma filter_conditions_blank_row (c p o df dt pc : option string) :
  Forall (fun t => t Sample.blank_row = false) (filter_conditions c p o df dt pc).
Proof.
  unfold filter_conditions.
  repeat apply Forall_app_2; apply condition_blank_row; intros s Hs; cbn;
    try reflexivity; by destruct s.
Qed.

Lemma single_row_listing (r : issue_row) :
  order_by_id_desc (issues (committed (Sample.world_with {[1 := r]}))) = [(1, r)].
Proof. reflexivity. Qed.

(** C10. [filter_issues] takes [None] and the empty text alike for an
    argument that adds no condition: with every argument so it returns all
    the rows, as [get_all_issues] does, and two calls whose arguments
    differ only there return the same rows. Hence, for each of category,
    progress, owner and problem_category, no choice of arguments makes
    [filter_issues] the query for the rows whose column is the empty
    text: on some table the two differ. *)
Theorem filter_issues_empty_is_absent :
  (forall c p o df dt pc w,
      absent c -> absent p -> absent o -> absent df -> absent dt -> absent pc ->
      filter_issues c p o df dt pc w = get_all_issues w)
  /\ (forall c c' p p' o o' df df' dt dt' pc pc' w,
        (c = c' \/ absent c /\ absent c') -> (p = p' \/ absent p /\ absent p') ->
        (o = o' \/ absent o /\ absent o') -> (df = df' \/ absent df /\ absent df') ->
        (dt = dt' \/ absent dt /\ absent dt') -> (pc = pc' \/ absent pc /\ absent pc') ->
        filter_issues c p o df dt pc w = filter_issues c' p' o' df' dt' pc' w)
  /\ (forall column,
        column ∈ [col_category; col_progress; col_owner; col_problem_category] ->
        forall c p o df dt pc,
        exists w,
          filter_issues c p o df dt pc w
          <> select_where [fun r => sql_eq (column r) ""] w).
Proof.
  split; [|split].
  - intros c p o df dt pc w Hc Hp Ho Hdf Hdt Hpc.
    unfold filter_issues, filter_conditions.
    rewrite !condition_absent by done. cbn [app].
    unfold select_where, get_all_issues. f_equal.
    induction (order_by_id_desc _) as [|kr l IH]; [done|].
    simpl in *. by f_equal.
  - intros c c' p p' o o' df df' dt dt' pc pc' w Hc Hp Ho Hdf Hdt Hpc.
    unfold filter_issues, filter_conditions.
    by rewrite (condition_same c c'), (condition_same p p'), (condition_same o o'),
      (condition_same df df'), (condition_same dt dt'), (condition_same pc pc').
  - intros column Hcol c p o df dt pc.
    destruct (filter_conditions c p o df dt pc) as [|t ts] eqn:Hconds.
    + exists (Sample.world_with {[1 := Sample.row_of "x"]}).
      unfold filter_issues, select_where. rewrite Hconds, single_row_listing.
      repeat (apply elem_of_cons in Hcol as [->|Hcol]; [discriminate|]).
      by apply elem_of_nil in Hcol.
    + exists (Sample.world_with {[1 := Sample.blank_row]}).
      unfold filter_issues, select_where. rewrite Hconds, single_row_listing.
      pose proof (filter_conditions_blank_row c p o df dt pc) as Hblank.
      rewrite Hconds in Hblank. apply Forall_cons in Hblank as [Ht _].
      cbn [List.filter forallb snd]. rewrite Ht. cbn [andb fmap list_fmap].
      repeat (apply elem_of_cons in Hcol as [->|Hcol]; [discriminate|]).
      by apply elem_of_nil in Hcol.
Qed.

(** ** The transform step *)

Lemma lstrip_not_blank (s : string) :
  blank s = false -> exists c s', lstrip s = String c s' /\ isspace c = false.
Proof.
  induction s as [|c s IH]; cbn; [done|].
  destruct (isspace c) eqn:Hc; cbn; [exact IH|]. intros _. by exists c, s.
Qed.

Lemma strip_not_blank (s : string) : blank s = false -> strip s <> "".
Proof.
  intros (c & s' & Hl & Hc)%lstrip_not_blank. unfold strip. rewrite Hl. cbn.
  rewrite Hc. by destruct (rstrip s').
Qed.

Lemma transform_loop_spec (raw_data : list dict) :
  forall (transformed : list dict) (skipped : nat),
    transform_loop raw_data transformed skipped
    = (transformed
         ++ (transform_row <$> List.filter (fun row => negb (id_missing row)) raw_data),
       (skipped + length (List.filter id_missing raw_data))%nat).
Proof.
  induction raw_data as [|row rest IH]; intros transformed skipped; cbn.
  - by rewrite app_nil_r, Nat.add_0_r.
  - destruct (id_missing row); cbn; rewrite IH.
    + f_equal. lia.
    + by rewrite <- app_assoc.
Qed.

Lemma id_missing_iff (row : dict) :
  id_missing row = true
  <-> row !! "ID" = None \/ row !! "ID" = Some VNone \/ row !! "ID" = Some (VStr "").
Proof.
  unfold id_missing, get.
  destruct (row !! "ID") as [[|z|s]|]; cbn [default].
  - split; [auto | reflexivity].
  - split; [discriminate | intros [H | [H | H]]; discriminate].
  - destruct (decide (s = "")) as [-> | Hs].
    + split; [auto | reflexivity].
    + assert (VStr s <> VStr "") as Hne by (intros [= ?]; done).
      rewrite (bool_decide_eq_false_2 _ Hne). cbn.
      split; [discriminate | intros [H | [H | H]]; congruence].
  - split; [auto | reflexivity].
Qed.

(** What [transform_data] keeps and what it drops. It never fails; it drops
    the raw rows whose ID is absent, [None] or the empty text, counting
    them, and keeps the others in order. The test is made on the raw ID,
    before it is stripped: the id handed to storage is not empty when the
    raw ID is an integer or a text with a character that is not white
    space. Every row read from storage has an integer id. *)
Theorem transform_data_drops_missing_ids (raw_data : list dict) :
  transform_data raw_data
  = transform_row <$> List.filter (fun row => negb (id_missing row)) raw_data
  /\ skipped_count raw_data = length (List.filter id_missing raw_data)
  /\ (forall row,
        id_missing row = true
        <-> row !! "ID" = None \/ row !! "ID" = Some VNone
            \/ row !! "ID" = Some (VStr ""))
  /\ (forall item, item ∈ transform_data raw_data ->
        exists row, row ∈ raw_data /\ id_missing row = false
                    /\ item = transform_row row)
  /\ (forall row, transform_row row !! "id" = Some (strip_if_str (get row "ID")))
  /\ (forall row,
        id_missing row = false ->
        (forall s, get row "ID" = VStr s -> blank s = false) ->
        get (transform_row row) "id" <> VStr ""
        /\ get (transform_row row) "id" <> VNone)
  /\ (forall w d, d ∈ get_all_issues w -> exists k, d !! "id" = Some (VInt k)).
Proof.
  assert (forall row, transform_row row !! "id" = Some (strip_if_str (get row "ID")))
    as Hid by reflexivity.
  split; [|split; [|split; [|split; [|split; [|split]]]]].
  - unfold transform_data. by rewrite transform_loop_spec.
  - unfold skipped_count. by rewrite transform_loop_spec.
  - apply id_missing_iff.
  - intros item Hin. unfold transform_data in Hin.
    rewrite transform_loop_spec in Hin. cbn in Hin.
    apply list_elem_of_fmap in Hin as (row & -> & Hrow).
    apply list_elem_of_In, filter_In in Hrow as [Hrow Hkeep].
    exists row. split; [by apply list_elem_of_In|].
    split; [by apply negb_true_iff | done].
  - exact Hid.
  - intros row Hkeep Hblank.
    assert (get (transform_row row) "id" = strip_if_str (get row "ID")) as ->
      by (unfold get at 1; by rewrite Hid).
    unfold id_missing in Hkeep.
    apply orb_false_iff in Hkeep as [_ Hnone%bool_decide_eq_false].
    destruct (get row "ID") as [|z|s] eqn:Hraw; [done | done |].
    cbn. split; [|done]. intros [= Hs]. by apply (strip_not_blank s (Hblank s eq_refl)).
  - intros w d Hin. unfold get_all_issues in Hin.
    apply list_elem_of_fmap in Hin as ([k r] & -> & _). by exists k.
Qed.

(** ** The pipeline boundary *)

Lemma io_step_no_fault (w : world) :
  io_fault w (io_steps w) = None ->
  io_step w = (Return tt, set_io_steps (S (io_steps w)) w).
Proof. intros H. unfold io_step. by rewrite H. Qed.

Lemma log_sync_outcome (n : Z) (s m : string) (w w' : world) (r : outcome unit) :
  log_sync n s m w = (r, w') ->
  match r with
  | Return _ =>
      sync_log (committed w') = sync_log (committed w) ++ [mk_sync_record n s m]
      /\ issues (committed w') = issues (committed w)
  | Raise _ => committed w' = committed w
  end.
Proof.
  unfold log_sync. unfold bind at 1. unfold sqlite3_connect. unfold bind at 1.
  destruct (io_step w) as [[[]|e] w0] eqn:E0; apply io_step_frame in E0 as [Ec0 _].
  2: { intros H. by injection H as <- <-. }
  unfold try_finally. unfold bind at 1.
  match goal with |- context [io_step ?x] =>
    destruct (io_step x) as [[[]|e] w1] eqn:E1; apply io_step_frame in E1 as [Ec1 Ew1] end.
  2: { intros H. injection H as <- <-. cbn in *. congruence. }
  cbn in Ec1, Ew1. unfold bind at 1.
  destruct (bindable (VInt n)).
  2: { intros H. injection H as <- <-. cbn. congruence. }
  unfold conn_commit. unfold bind at 1.
  match goal with |- context [io_step ?x] =>
    destruct (io_step x) as [[[]|e] w2] eqn:E2; apply io_step_frame in E2 as [Ec2 Ew2] end.
  - intros H. injection H as <- <-. cbn in *. rewrite Ew2, Ew1, Ec0. done.
  - intros H. injection H as <- <-. cbn in *. congruence.
Qed.

Lemma log_sync_healthy (s m : string) (w : world) :
  (forall i, (i < 3)%nat -> io_fault w (io_steps w + i) = None) ->
  exists w', log_sync 0 s m w = (Return tt, w').
Proof.
  intros Hok.
  pose proof (Hok 0%nat ltac:(lia)) as H0. rewrite Nat.add_0_r in H0.
  pose proof (Hok 1%nat ltac:(lia)) as H1. rewrite Nat.add_1_r in H1.
  pose proof (Hok 2%nat ltac:(lia)) as H2.
  replace (io_steps w + 2)%nat with (S (S (io_steps w))) in H2 by lia.
  unfold log_sync, sqlite3_connect, conn_commit, try_finally, bind.
  rewrite (io_step_no_fault w H0). cbv beta iota.
  rewrite io_step_no_fault by exact H1. cbv beta iota.
  change (bindable (VInt 0)) with true. cbv beta iota.
  rewrite io_step_no_fault by exact H2. cbv beta iota.
  eexists. reflexivity.
Qed.

Lemma sync_body_raise (w w0 w1 : world) (e : exn) :
  init_database w = (Return tt, w0) ->
  (fetch_google_sheets_data w0 = (Raise e, w1)
   \/ exists raw wf,
        fetch_google_sheets_data w0 = (Return (Some raw), wf)
        /\ safe_replace_issues rowid_of_text (transform_data raw) wf = (Raise e, w1)) ->
  sync_body rowid_of_text w = (Raise e, w1).
Proof.
  intros Hinit Hstep. unfold sync_body. unfold bind at 1. rewrite Hinit.
  unfold bind at 1.
  destruct Hstep as [Hfetch | (raw & wf & Hfetch & Hreplace)]; rewrite Hfetch; [done|].
  unfold bind at 1. unfold ret at 1. unfold bind at 1. by rewrite Hreplace.
Qed.

(** C2, as the code has it. When the fetch or the replace raises [e]
    inside [sync], the handler appends the ledger record
    (0, failed, [str(e)]); if that append succeeds, as it does when the
    store has no fault during its three steps, [sync] returns [False], the
    ledger has grown by exactly that record and the issues are as the
    failed step left them; if the append itself raises, nothing is
    recorded and [sync] raises that exception to its caller. *)
Theorem sync_records_failure (w w0 w1 : world) (e : exn) :
  init_database w = (Return tt, w0) ->
  (fetch_google_sheets_data w0 = (Raise e, w1)
   \/ exists raw wf,
        fetch_google_sheets_data w0 = (Return (Some raw), wf)
        /\ safe_replace_issues rowid_of_text (transform_data raw) wf = (Raise e, w1)) ->
  (forall w2,
      log_sync 0 "failed" (exn_msg e) w1 = (Return tt, w2) ->
      sync rowid_of_text w = (Return false, w2)
      /\ sync_log (committed w2)
         = sync_log (committed w1) ++ [mk_sync_record 0 "failed" (exn_msg e)]
      /\ issues (committed w2) = issues (committed w1))
  /\ ((forall i, (i < 3)%nat -> io_fault w1 (io_steps w1 + i) = None) ->
      exists w2, log_sync 0 "failed" (exn_msg e) w1 = (Return tt, w2))
  /\ (forall e' w2,
        log_sync 0 "failed" (exn_msg e) w1 = (Raise e', w2) ->
        sync rowid_of_text w = (Raise e', w2)
        /\ committed w2 = committed w1).
Proof.
  intros Hinit Hstep.
  pose proof (sync_body_raise w w0 w1 e Hinit Hstep) as Hbody.
  split; [|split].
  - intros w2 Hlog. split.
    + unfold sync, try_except. rewrite Hbody. unfold bind. by rewrite Hlog.
    + by apply (log_sync_outcome _ _ _ _ _ _ Hlog).
  - apply log_sync_healthy.
  - intros e' w2 Hlog. split.
    + unfold sync, try_except. rewrite Hbody. unfold bind. by rewrite Hlog.
    + by apply (log_sync_outcome _ _ _ _ _ _ Hlog).
Qed.

End storage_properties.

(** * Instances on concrete inputs *)

Import Sample.

(** The rollback on an input: the second row has an empty text for id, the
    engine refuses it after the DELETE and the first insert, and the old
    row is still there. *)
Lemma safe_replace_issues_rollback_witness :
  let items := [item (VInt 7) "a"; item (VStr "") "b"] in
  let w := world_with {[1 := row_of "old"]} in
  items <> []
  /\ fst (safe_replace_issues no_text_ids items w) = Raise datatype_mismatch
  /\ committed (snd (safe_replace_issues no_text_ids items w)) = committed w.
Proof.
  intros items w. split; [discriminate|]. split; [vm_compute; reflexivity|].
  destruct (safe_replace_issues_rollback no_text_ids items w) as [H _];
    [discriminate|].
  apply (H datatype_mismatch). vm_compute. reflexivity.
Defined.

(** [sync] can raise: the sheet is down, so the fetch raises after its
    three attempts; the store then fails when the handler opens it for the
    ledger, and [sync] raises instead of returning [False], with nothing
    recorded. *)
Lemma sync_raises_past_boundary :
  exists w0 w1,
    init_database ledger_down = (Return tt, w0)
    /\ fetch_google_sheets_data w0 = (Raise (mk_exn "APIError" "503"), w1)
    /\ fst (sync no_text_ids ledger_down) = Raise disk_error
    /\ sync_log (committed (snd (sync no_text_ids ledger_down))) = [].
Proof.
  eexists _, _. split; [vm_compute; reflexivity|].
  split; [vm_compute; reflexivity|].
  split; vm_compute; reflexivity.
Qed.

(** A recorded failure: the sheet is down and the store is healthy. *)
Lemma sync_records_failure_witness :
  let w := world_with ∅ in
  let w0 := snd (init_database w) in
  let w1 := snd (fetch_google_sheets_data w0) in
  let w2 := snd (log_sync 0 "failed" "503" w1) in
  sync no_text_ids w = (Return false, w2)
  /\ sync_log (committed w2) = [mk_sync_record 0 "failed" "503"].
Proof.
  intros w w0 w1 w2.
  destruct (sync_records_failure no_text_ids w w0 w1 (mk_exn "APIError" "503"))
    as [H _]; [vm_compute; reflexivity | left; vm_compute; reflexivity |].
  destruct (H w2) as (Hsync & Hlog & _); [vm_compute; reflexivity|].
  split; [exact Hsync | rewrite Hlog; reflexivity].
Defined.

(** A padded upper-case variant. *)
Lemma normalize_progress_table_witness :
  normalize_progress (VStr "  IN PROGRESS ") = "In Progress"
  /\ "In Progress" ∈ PROGRESS_VALUES.
Proof.
  destruct normalize_progress_table as [H _].
  apply (H "IN PROGRESS" "In Progress" "  " " "); [|reflexivity|reflexivity].
  unfold PROGRESS_TABLE. do 6 apply list_elem_of_further. apply list_elem_of_here.
Defined.

(** Three failed fetches: the sheet is down on every call. *)
Lemma retry_on_error_three_failures_witness :
  let e := mk_exn "APIError" "503" in
  let w0 := world_with ∅ in
  let w1 := snd (_connect_and_fetch w0) in
  let w2 := snd (_connect_and_fetch (snd (time_sleep 2 w1))) in
  let w3 := snd (_connect_and_fetch (snd (time_sleep 4 w2))) in
  retry_on_error _connect_and_fetch w0 = (Raise e, w3)
  /\ slept w3 = [2; 4] /\ fetches w3 = 3%nat.
Proof.
  intros e w0 w1 w2 w3.
  destruct (retry_on_error_three_failures _connect_and_fetch w0 w1 w2 w3 e e e)
    as (H & _ & _ & Hs); [reflexivity | reflexivity | reflexivity |].
  split; [exact H|]. split; [|reflexivity].
  apply Hs. exact connect_and_fetch_slept.
Defined.

(** C6, at the input where the code departs from it. The claim: a raw row
    whose id is missing or empty is dropped by [transform_data], so that no
    row with an empty id reaches storage and no batch fails for it. The code
    tests the raw ID before it strips it: a raw ID of white space passes the
    test, is stripped to the empty text, and the row is handed to
    [safe_replace_issues] with an empty id; storage then refuses the whole
    batch. *)
Lemma transform_data_keeps_blank_id :
  let raw_data : list dict := [ {[ "ID" := VStr " " ]} ] in
  exists item,
    item ∈ transform_data raw_data
    /\ item !! "id" = Some (VStr "")
    /\ fst (safe_replace_issues no_text_ids (transform_data raw_data) (world_with ∅))
       = Raise datatype_mismatch.
Proof.
  intros raw_data. exists (transform_row {[ "ID" := VStr " " ]}).
  split; [apply list_elem_of_here|]. split; vm_compute; reflexivity.
Qed.

(** Two rows skipped, one kept with its id. *)
Lemma transform_data_drops_missing_ids_witness :
  let kept : dict := {[ "ID" := VInt 1; "Progress" := VStr " done " ]} in
  let raw_data : list dict := [ kept; {[ "ID" := VStr "" ]}; {[ "Date" := VStr "x" ]} ] in
  skipped_count raw_data = 2%nat
  /\ get (transform_row kept) "id" <> VStr "".
Proof.
  intros kept raw_data.
  destruct (transform_data_drops_missing_ids raw_data)
    as (_ & Hskipped & _ & _ & _ & Hid & _).
  split; [rewrite Hskipped; reflexivity|].
  apply Hid; [reflexivity|].
  intros s Hs. vm_compute in Hs. discriminate.
Defined.

(** A padded month/day/year text. *)
Lemma parse_date_priority_witness :
  parse_date (VStr " 3/4/2026 ") = Some (mk_datetime 2026 3 4).
Proof.
  destruct parse_date_priority as (_ & _ & _ & _ & H & _).
  apply H; [discriminate | vm_compute; reflexivity].
Defined.

(** The count after a replace is not always the length of the list: on the
    empty list nothing is written and the count stays at what the table
    held; with the same id twice the second row replaces the first and the
    count is one short. *)
Lemma safe_replace_issues_count_differs :
  (let w := world_with {[1 := row_of "old"]} in
   safe_replace_issues no_text_ids [] w = (Return 0, w)
   /\ get_issues_count w = 1
   /\ Z.of_nat (length ([] : list dict)) = 0)
  /\ (let items := [item (VInt 1) "a"; item (VInt 1) "b"] in
      let w := world_with ∅ in
      fst (safe_replace_issues no_text_ids items w) = Return 2
      /\ get_issues_count (snd (safe_replace_issues no_text_ids items w)) = 1
      /\ Z.of_nat (length items) = 2).
Proof.
  split; cbv zeta; (split; [|split]); vm_compute; reflexivity.
Qed.

(** Two canonical rows replace one old row. *)
Lemma safe_replace_issues_round_trip_witness :
  let items := [item (VInt 2) "a"; item (VInt 1) "b"] in
  let w := world_with {[5 := row_of "old"]} in
  get_issues_count (snd (safe_replace_issues no_text_ids items w)) = 2.
Proof.
  intros items w.
  destruct (safe_replace_issues_round_trip no_text_ids items w
              (snd (safe_replace_issues no_text_ids items w)) 2)
    as (_ & H & _).
  - discriminate.
  - repeat constructor; try (eexists; reflexivity);
      intros col Hcol z Hz; cbn [tail columns] in Hcol;
      repeat (apply elem_of_cons in Hcol as [->|Hcol];
              [vm_compute in Hz; discriminate|]);
      by apply elem_of_nil in Hcol.
  - apply (bool_decide_unpack _). vm_compute. exact I.
  - vm_compute. reflexivity.
  - exact H.
Defined.

(** The listing does not follow the insertions: the rows are inserted with
    the ids 2, 3, 1 in that order; the listing starts with 3 and ends with
    1, the id inserted last. *)
Lemma get_all_issues_not_by_insertion :
  let items := [item (VInt 2) "a"; item (VInt 3) "b"; item (VInt 1) "c"] in
  let w := world_with ∅ in
  fst (safe_replace_issues no_text_ids items w) = Return 3
  /\ (fun d : dict => d !! "id") <$> items
     = [Some (VInt 2); Some (VInt 3); Some (VInt 1)]
  /\ (fun d : dict => d !! "id")
       <$> get_all_issues (snd (safe_replace_issues no_text_ids items w))
     = [Some (VInt 3); Some (VInt 2); Some (VInt 1)].
Proof.
  cbv zeta. split; [|split]; vm_compute; reflexivity.
Qed.

(** Three stored rows, listed by descending id. *)
Lemma get_all_issues_descending_witness :
  let w := world_with {[2 := row_of "b"; 3 := row_of "c"; 1 := row_of "a"]} in
  exists l : list (Z * issue_row),
    get_all_issues w = row_dict <$> l
    /\ StronglySorted (fun a b => b < a) l.*1
    /\ length l = 3%nat.
Proof.
  intros w. destruct (get_all_issues_descending w) as (l & Hl & Hsorted & _ & Hlen & _).
  exists l. split; [exact Hl|]. split; [exact Hsorted|].
  rewrite Hlen. vm_compute. reflexivity.
Defined.

(** Empty texts and [None] mixed: all rows come back. *)
Lemma filter_issues_empty_is_absent_witness :
  let w := world_with {[1 := blank_row; 2 := row_of "x"]} in
  filter_issues (Some "") None (Some "") None None (Some "") w = get_all_issues w.
Proof.
  intros w. destruct filter_issues_empty_is_absent as [H _].
  apply H; (by left) || (by right).
Defined.

(** * Further properties of the modelled code *)

(** ** Normalisation library *)

Lemma rstrip_idempotent (s : string) : rstrip (rstrip s) = rstrip s.
Proof.
  induction s as [|c s IH]; [done|]. cbn [rstrip].
  destruct (rstrip s) as [|c' r] eqn:Hr.
  - destruct (isspace c) eqn:Hc; [done|]. cbn. by rewrite Hc.
  - change (rstrip (String c (String c' r)))
      with (match rstrip (String c' r) with
            | EmptyString => if isspace c then EmptyString else String c EmptyString
            | String a b => String c (String a b)
            end).
    by rewrite IH.
Qed.

Lemma rstrip_keeps_head (c : ascii) (s : string) :
  isspace c = false -> exists r, rstrip (String c s) = String c r.
Proof.
  intros Hc. cbn [rstrip]. destruct (rstrip s); [|by eexists].
  rewrite Hc. by eexists.
Qed.

Lemma lstrip_head (s : string) :
  lstrip s = EmptyString
  \/ exists c r, lstrip s = String c r /\ isspace c = false.
Proof.
  induction s as [|c s IH]; cbn; [by left|].
  destruct (isspace c) eqn:Hc; [exact IH|]. right. by exists c, s.
Qed.

Lemma strip_idempotent (s : string) : strip (strip s) = strip s.
Proof.
  unfold strip. destruct (lstrip_head s) as [-> | (c & r & -> & Hc)]; [done|].
  destruct (rstrip_keeps_head c r Hc) as [r' Hr]. rewrite Hr.
  cbn [lstrip]. rewrite Hc, <- Hr. apply rstrip_idempotent.
Qed.

Lemma normalize_progress_range (v : value) :
  normalize_progress v ∈ PROGRESS_VALUES ++ ["Unknown"].
Proof.
  unfold normalize_progress.
  destruct (isna v || bool_decide (v = VNone)); [set_solver|]. cbn zeta.
  destruct (PROGRESS_MAPPING !! strip (str v)) as [c|] eqn:Hc; [|set_solver].
  apply elem_of_list_to_map_2 in Hc. cbn [default].
  unfold PROGRESS_TABLE in Hc.
  repeat (apply elem_of_cons in Hc as [[= _ ->]|Hc]; [set_solver|]).
  by apply elem_of_nil in Hc.
Qed.

(** The normalised value is always one of the five canonical values, is
    left unchanged by a second normalisation, and has a colour. *)
Theorem normalize_progress_closed (v : value) :
  normalize_progress v ∈ PROGRESS_VALUES ++ ["Unknown"]
  /\ normalize_progress (VStr (normalize_progress v)) = normalize_progress v
  /\ is_Some (PROGRESS_COLORS !! normalize_progress v).
Proof.
  pose proof (normalize_progress_range v) as Hin.
  split; [exact Hin|].
  cbn [app PROGRESS_VALUES] in Hin.
  repeat (apply elem_of_cons in Hin as [->|Hin]; [split; [reflexivity | by eexists]|]).
  by apply elem_of_nil in Hin.
Qed.

(** [style_progress] gives the empty style exactly for the inputs that
    normalise to Unknown, [None] among them, and otherwise the style
    recorded for the normalised value. *)
Theorem style_progress_unknown (v : value) :
  (style_progress v = "" <-> normalize_progress v = "Unknown")
  /\ (normalize_progress v <> "Unknown" ->
      PROGRESS_STYLES !! normalize_progress v = Some (style_progress v)).
Proof.
  unfold style_progress. destruct (isna v) eqn:Hna.
  - destruct v; try discriminate. split; [done | intros H; by destruct H].
  - cbv zeta. pose proof (normalize_progress_range v) as Hin.
    cbn [app PROGRESS_VALUES] in Hin.
    repeat (apply elem_of_cons in Hin as [Hin|Hin];
            [rewrite Hin; split; [split; discriminate | reflexivity]|]).
    apply elem_of_cons in Hin as [Hin|Hin]; [|by apply elem_of_nil in Hin].
    rewrite Hin. split; [done | intros H; by destruct H].
Qed.

Lemma style_progress_unknown_witness :
  PROGRESS_STYLES !! normalize_progress (VStr " blocked ")
  = Some (style_progress (VStr " blocked ")).
Proof.
  destruct (style_progress_unknown (VStr " blocked ")) as [_ H].
  apply H. vm_compute. discriminate.
Defined.

Lemma strptime_valid (data fmt : string) (dt : datetime) :
  strptime data fmt = Some dt ->
  Strptime.valid_date (year dt) (month dt) (day dt) = true.
Proof.
  unfold strptime, Strptime.strptime.
  destruct (Strptime.compile fmt) as [ts|]; [|done].
  destruct (Strptime.re_match ts data) as [[fs [|c rest]]|]; [|done|done].
  cbv zeta. destruct (Strptime.valid_date _ _ _) eqn:Hv; [|done].
  intros [= <-]. exact Hv.
Qed.

Lemma try_formats_valid (cleaned : string) (fmts : list string) (dt : datetime) :
  try_formats cleaned fmts = Some dt ->
  Strptime.valid_date (year dt) (month dt) (day dt) = true.
Proof.
  induction fmts as [|fmt fmts IH]; cbn; [done|].
  destruct (strptime cleaned fmt) as [dt'|] eqn:Hs; [|exact IH].
  intros [= <-]. by eapply strptime_valid.
Qed.

(** Whatever [parse_date] returns is a date of the calendar (a month from 1
    to 12, a day the month has in that year, a year from 1 to 9999), and
    white space around a text never changes the result. *)
Theorem parse_date_calendar :
  (forall v dt,
      parse_date v = Some dt ->
      1 <= year dt <= 9999 /\ 1 <= month dt <= 12
      /\ 1 <= day dt <= Strptime.days_in_month (year dt) (month dt))
  /\ (forall s, parse_date (VStr (strip s)) = parse_date (VStr s)).
Proof.
  split.
  - intros v dt H. unfold parse_date in H.
    destruct (isna v || negb (truthy v)); [done|].
    apply try_formats_valid in H. unfold Strptime.valid_date in H.
    repeat (apply andb_prop in H as [H ?]). lia.
  - intros s. unfold parse_date. cbn [isna orb str truthy].
    destruct (String.eqb_spec s "") as [->|Hs]; [done|].
    destruct (String.eqb_spec (strip s) "") as [Hb|Hb]; cbn [negb].
    + by rewrite Hb.
    + by rewrite strip_idempotent.
Qed.

Lemma parse_date_calendar_witness :
  1 <= month (mk_datetime 2024 2 29) <= 12
  /\ parse_date (VStr "02/29/2024") = Some (mk_datetime 2024 2 29).
Proof.
  destruct parse_date_calendar as [H _].
  destruct (H (VStr "02/29/2024") (mk_datetime 2024 2 29)) as (_ & Hm & _);
    [vm_compute; reflexivity|].
  split; [exact Hm | vm_compute; reflexivity].
Defined.

(** ** The transform step, continued *)

Lemma strip_if_str_stripped (v : value) (s : string) :
  strip_if_str v = VStr s -> strip s = s.
Proof.
  destruct v as [|z|s0]; cbn; [done | done |].
  intros [= <-]. apply strip_idempotent.
Qed.

(** Every raw row is either kept or counted as skipped; a kept row has
    exactly the eleven fields of the table, whatever columns the raw row
    had, and every text in it is stripped; the fields the mapping
    produces are the columns the storage layer writes, in the same
    order. *)
Theorem transform_data_shape (raw_data : list dict) :
  (length (transform_data raw_data) + skipped_count raw_data)%nat = length raw_data
  /\ (forall item, item ∈ transform_data raw_data ->
        (forall col, is_Some (item !! col) <-> col ∈ columns)
        /\ (forall col s, item !! col = Some (VStr s) -> strip s = s))
  /\ ALL_FIELDS = columns.
Proof.
  split; [|split; [|reflexivity]].
  - unfold transform_data, skipped_count. rewrite transform_loop_spec. cbn [fst snd app].
    rewrite length_fmap. induction raw_data as [|row rest IH]; [done|].
    cbn. destruct (id_missing row); cbn; lia.
  - intros item Hin.
    unfold transform_data in Hin. rewrite transform_loop_spec in Hin. cbn in Hin.
    apply list_elem_of_fmap in Hin as (row & -> & _).
    unfold transform_row. cbn [foldl COLUMN_MAPPING]. split.
    + intros col. rewrite <- elem_of_dom, !dom_insert_L, dom_empty_L.
      unfold columns.
      rewrite !elem_of_union, !elem_of_singleton, !elem_of_cons, elem_of_nil,
        elem_of_empty.
      tauto.
    + intros col s H.
      repeat (apply lookup_insert_Some in H as [[_ H]|[_ H]];
              [by eapply strip_if_str_stripped|]).
      by rewrite lookup_empty in H.
Qed.

Lemma transform_data_shape_witness :
  let kept : dict :=
    {[ "ID" := VInt 3; "Owner" := VStr "  Ann "; "Notes" := VStr "x" ]} in
  let raw_data : list dict := [ kept; {[ "Owner" := VStr "Bob" ]} ] in
  (length (transform_data raw_data) + skipped_count raw_data)%nat = 2%nat
  /\ is_Some (transform_row kept !! "result")
  /\ transform_row kept !! "Notes" = None
  /\ strip "Ann" = "Ann".
Proof.
  intros kept raw_data.
  destruct (transform_data_shape raw_data) as (Hlen & Hitem & _).
  destruct (Hitem (transform_row kept)) as [Hcols Hstrip].
  { vm_compute. apply list_elem_of_here. }
  split; [exact Hlen|]. split; [|split].
  - apply Hcols. unfold columns. rewrite !elem_of_cons. tauto.
  - apply eq_None_not_Some. rewrite Hcols. unfold columns.
    rewrite !elem_of_cons, elem_of_nil.
    intros H. repeat (destruct H as [H|H]; [discriminate|]). exact H.
  - apply (Hstrip "owner"). reflexivity.
Defined.

(** ** Retry with backoff, continued *)

(** A call that succeeds ends the retries: at once, after one failure and a
    sleep of 2 seconds, or after two failures and sleeps of 2 and 4
    seconds; the value returned is the value of that call. *)
Theorem retry_on_error_success {A} (func : M A) (w : world) :
  (forall a w1,
      func w = (Return a, w1) ->
      retry_on_error func w = (Return (Some a), w1))
  /\ (forall e1 w1 a w2,
        func w = (Raise e1, w1) ->
        func (snd (time_sleep 2 w1)) = (Return a, w2) ->
        retry_on_error func w = (Return (Some a), w2))
  /\ (forall e1 w1 e2 w2 a w3,
        func w = (Raise e1, w1) ->
        func (snd (time_sleep 2 w1)) = (Raise e2, w2) ->
        func (snd (time_sleep 4 w2)) = (Return a, w3) ->
        retry_on_error func w = (Return (Some a), w3)).
Proof.
  unfold retry_on_error. change (seq 0 MAX_RETRIES) with [0; 1; 2]%nat.
  split; [|split].
  - intros a w1 H. by apply retry_loop_return.
  - intros e1 w1 a w2 H1 H2.
    rewrite (retry_loop_backoff _ _ _ _ _ _ H1) by (cbn; lia).
    by apply retry_loop_return.
  - intros e1 w1 e2 w2 a w3 H1 H2 H3.
    rewrite (retry_loop_backoff _ _ _ _ _ _ H1) by (cbn; lia).
    rewrite (retry_loop_backoff _ _ _ _ _ _ H2) by (cbn; lia).
    by apply retry_loop_return.
Qed.

Lemma retry_on_error_success_witness :
  let w := mk_world (mk_database ∅ []) (mk_database ∅ []) no_faults 0
             (fun n => if (n =? 1)%nat then Return [] else sheet_down n) 0 []
             no_entropy in
  exists w', retry_on_error _connect_and_fetch w = (Return (Some []), w')
             /\ slept w' = [2] /\ fetches w' = 2%nat.
Proof.
  intros w. destruct (retry_on_error_success _connect_and_fetch w) as (_ & H & _).
  eexists. split; [|split].
  - eapply H; reflexivity.
  - reflexivity.
  - reflexivity.
Defined.

Lemma connect_and_fetch_world (w w' : world) (r : outcome (list dict)) :
  _connect_and_fetch w = (r, w') -> w' = set_fetches (S (fetches w)) w.
Proof. by intros [= _ <-]. Qed.

Lemma fetch_cases (w w' : world)
    (r : outcome (option (list dict))) :
  fetch_google_sheets_data w = (r, w') ->
  exists calls : nat,
    (1 <= calls <= 3)%nat
    /\ fetches w' = (fetches w + calls)%nat
    /\ slept w' = slept w ++ take (calls - 1) [2; 4]
    /\ committed w' = committed w
    /\ io_steps w' = io_steps w
    /\ r <> Return None
    /\ (forall e, r = Raise e -> calls = 3%nat).
Proof.
  unfold fetch_google_sheets_data, retry_on_error.
  change (seq 0 MAX_RETRIES) with [0; 1; 2]%nat.
  destruct (_connect_and_fetch w) as [[a|e1] w1] eqn:E1;
    pose proof (connect_and_fetch_world _ _ _ E1) as ->.
  { rewrite (retry_loop_return _ _ _ _ _ _ E1). intros [= <- <-].
    exists 1%nat. cbn. rewrite app_nil_r. repeat split; try done; lia. }
  rewrite (retry_loop_backoff _ _ _ _ _ _ E1) by (cbn; lia).
  match goal with |- context [retry_loop _ _ ?x] =>
    destruct (_connect_and_fetch x) as [[a|e2] w2] eqn:E2;
    pose proof (connect_and_fetch_world _ _ _ E2) as -> end.
  { rewrite (retry_loop_return _ _ _ _ _ _ E2). intros [= <- <-].
    exists 2%nat. cbn. repeat split; try done; lia. }
  rewrite (retry_loop_backoff _ _ _ _ _ _ E2) by (cbn; lia).
  match goal with |- context [retry_loop _ _ ?x] =>
    destruct (_connect_and_fetch x) as [[a|e3] w3] eqn:E3;
    pose proof (connect_and_fetch_world _ _ _ E3) as -> end.
  { rewrite (retry_loop_return _ _ _ _ _ _ E3). intros [= <- <-].
    exists 3%nat. cbn. rewrite <- app_assoc. repeat split; try done; lia. }
  rewrite (retry_loop_give_up _ _ _ _ _ _ E3) by reflexivity. intros [= <- <-].
  exists 3%nat. cbn. rewrite <- app_assoc. repeat split; try done; lia.
Qed.

(** The remote fetch makes at least one and at most three calls to the
    sheet, sleeps 2 and then 4 seconds between them and not after the
    last, leaves the database as it is, and never returns [None]. *)
Theorem fetch_google_sheets_data_bounded (w w' : world)
    (r : outcome (option (list dict))) :
  fetch_google_sheets_data w = (r, w') ->
  exists calls : nat,
    (1 <= calls <= 3)%nat
    /\ fetches w' = (fetches w + calls)%nat
    /\ slept w' = slept w ++ take (calls - 1) [2; 4]
    /\ committed w' = committed w
    /\ io_steps w' = io_steps w
    /\ r <> Return None
    /\ (forall e, r = Raise e -> calls = 3%nat).
Proof. apply fetch_cases. Qed.

Lemma fetch_google_sheets_data_bounded_witness :
  exists calls : nat,
    (1 <= calls <= 3)%nat
    /\ fetches (snd (fetch_google_sheets_data (world_with ∅))) = calls.
Proof.
  destruct (fetch_google_sheets_data_bounded (world_with ∅)
              (snd (fetch_google_sheets_data (world_with ∅)))
              (fst (fetch_google_sheets_data (world_with ∅))))
    as (calls & Hc & Hf & _); [vm_compute; reflexivity|].
  exists calls. split; [exact Hc | exact Hf].
Defined.

(** ** The storage layer, continued *)

Section storage_more_properties.

Context (rowid_of_text : string -> option Z).

Lemma upsert_all_last (pre post : list dict) (item : dict) (t : gmap Z issue_row) :
  key_of item ∉ key_of <$> post ->
  foldl (fun t item => <[key_of item := cells_of item]> t) t (pre ++ item :: post)
    !! key_of item = Some (cells_of item).
Proof.
  intros Hlast. rewrite foldl_app. cbn [foldl].
  rewrite foldl_insert_other by done. apply lookup_insert_eq.
Qed.

Lemma upsert_all_dom (items : list dict) :
  forall t : gmap Z issue_row,
    dom (foldl (fun t item => <[key_of item := cells_of item]> t) t items)
    = dom t ∪ list_to_set (key_of <$> items).
Proof.
  induction items as [|item items IH]; intros t; cbn [foldl].
  - cbn. by rewrite (right_id_L ∅ (∪)).
  - rewrite IH, dom_insert_L, fmap_cons, list_to_set_cons.
    rewrite (comm_L (∪) {[key_of item]} (dom t)). by rewrite (assoc_L (∪)).
Qed.

Lemma sqlite3_connect_return (w w' : world) :
  sqlite3_connect w = (Return tt, w') ->
  w' = set_work (committed w) (set_io_steps (S (io_steps w)) w).
Proof.
  unfold sqlite3_connect, bind.
  destruct (io_step w) as [[[]|e] w0] eqn:E; [|done].
  apply io_step_return in E as ->. by intros [= <-].
Qed.

Lemma conn_commit_return (w w' : world) :
  conn_commit w = (Return tt, w') ->
  w' = set_committed (work w) (set_io_steps (S (io_steps w)) w).
Proof.
  unfold conn_commit, bind.
  destruct (io_step w) as [[[]|e] w0] eqn:E; [|done].
  apply io_step_return in E as ->. by intros [= <-].
Qed.

Lemma execute_delete_return (w w' : world) :
  execute_delete w = (Return tt, w') ->
  w' = set_work (set_issues ∅ (work w)) (set_io_steps (S (io_steps w)) w).
Proof.
  unfold execute_delete, bind.
  destruct (io_step w) as [[[]|e] w0] eqn:E; [|done].
  apply io_step_return in E as ->. by intros [= <-].
Qed.

(** What a successful [insert_issues] went through. *)
Lemma insert_issues_return (items : list dict) (w w' : world) (n : Z) :
  items <> [] ->
  insert_issues rowid_of_text items w = (Return n, w') ->
  n = Z.of_nat (length items)
  /\ exists w1 w2,
       work w1 = committed w
       /\ executemany rowid_of_text (row_tuple <$> items) w1 = (Return tt, w2)
       /\ committed w' = work w2.
Proof.
  intros Hne H. unfold insert_issues in H.
  rewrite bool_decide_eq_false_2 in H by done.
  unfold bind at 1 in H.
  destruct (sqlite3_connect w) as [[[]|e] w1] eqn:E1; [|done].
  apply sqlite3_connect_return in E1 as ->.
  unfold try_finally in H. cbv zeta in H. unfold bind at 1 in H.
  match type of H with context [executemany _ _ ?x] =>
    destruct (executemany rowid_of_text (row_tuple <$> items) x) as [[[]|e] w2] eqn:E2;
    [|done] end.
  unfold bind at 1 in H.
  destruct (conn_commit w2) as [[[]|e] w3] eqn:E3; [|done].
  apply conn_commit_return in E3 as ->.
  injection H as <- <-. split; [by rewrite length_fmap|].
  eexists _, w2. split; [|split; [exact E2|]]; reflexivity.
Qed.

Lemma insert_issues_raise (items : list dict) (w w' : world) (e : exn) :
  insert_issues rowid_of_text items w = (Raise e, w') ->
  committed w' = committed w.
Proof.
  intros H. unfold insert_issues in H. case_bool_decide; [done|].
  unfold bind at 1 in H.
  destruct (sqlite3_connect w) as [[[]|e1] w1] eqn:E1; apply sqlite3_connect_frame in E1.
  2: { by injection H as <- <-. }
  unfold try_finally in H. cbv zeta in H. unfold bind at 1 in H.
  destruct (executemany _ _ w1) as [[[]|e2] w2] eqn:E2; apply executemany_frame in E2.
  2: { injection H as <- <-. cbn. congruence. }
  unfold bind at 1 in H.
  destruct (conn_commit w2) as [[[]|e3] w3] eqn:E3; [done|].
  apply conn_commit_raise in E3. injection H as <- <-. cbn. congruence.
Qed.

(** [insert_issues] adds to the table without clearing it. On the empty
    list it does nothing; when it raises, nothing has been committed; when
    it returns, on rows with integer ids, it returns their number, the
    rows stored under other ids are as before, each id of the batch holds
    the cells of the last row that carries it, and the ledger is as
    before. *)
Theorem insert_issues_upsert (items : list dict) (w : world) :
  insert_issues rowid_of_text [] w = (Return 0, w)
  /\ (forall e w',
        insert_issues rowid_of_text items w = (Raise e, w') ->
        committed w' = committed w)
  /\ (forall n w',
        Forall (fun item => exists k, get item "id" = VInt k) items ->
        insert_issues rowid_of_text items w = (Return n, w') ->
        n = Z.of_nat (length items)
        /\ sync_log (committed w') = sync_log (committed w)
        /\ (forall k, k ∉ key_of <$> items ->
              issues (committed w') !! k = issues (committed w) !! k)
        /\ (forall pre item post,
              items = pre ++ item :: post ->
              key_of item ∉ key_of <$> post ->
              issues (committed w') !! key_of item = Some (cells_of item))).
Proof.
  split; [reflexivity|]. split; [intros e w'; apply insert_issues_raise|].
  intros n w' Hids H.
  destruct (decide (items = [])) as [-> | Hne].
  { injection H as <- <-. repeat split; try done.
    intros pre item post Heq. by destruct pre. }
  apply insert_issues_return in H as (-> & w1 & w2 & Hw1 & Hmany & Hcommit); [|done].
  apply executemany_return in Hmany as [Ht Hl]; [|done].
  rewrite Hw1 in Ht, Hl. rewrite Hcommit, Ht, Hl.
  split; [done|]. split; [done|]. split.
  - intros k Hk. by apply foldl_insert_other.
  - intros pre item post -> Hlast. by apply upsert_all_last.
Qed.

(** After a successful [safe_replace_issues] on rows with integer ids the
    table holds the batch and nothing else: no row under an id that is not
    in the batch, under each id of the batch the cells of the last row
    that carries it, as many rows as the batch has distinct ids; the
    ledger is as before. *)
Theorem safe_replace_issues_supersedes (items : list dict) (w w' : world) (n : Z) :
  items <> [] ->
  Forall (fun item => exists k, get item "id" = VInt k) items ->
  safe_replace_issues rowid_of_text items w = (Return n, w') ->
  sync_log (committed w') = sync_log (committed w)
  /\ (forall k, k ∉ key_of <$> items -> issues (committed w') !! k = None)
  /\ (forall pre item post,
        items = pre ++ item :: post ->
        key_of item ∉ key_of <$> post ->
        issues (committed w') !! key_of item = Some (cells_of item))
  /\ get_issues_count w'
     = Z.of_nat (size (list_to_set (key_of <$> items) : gset Z)).
Proof.
  intros Hne Hids H.
  apply safe_replace_return in H as (_ & w2 & w3 & Hempty & Hlog & Hmany & Hcommit);
    [|done].
  apply executemany_return in Hmany as [Ht Hl]; [|done].
  rewrite Hempty in Ht. unfold get_issues_count. rewrite Hcommit, Ht, Hl.
  split; [done|]. split; [|split].
  - intros k Hk. by rewrite foldl_insert_other.
  - intros pre item post -> Hlast. by apply upsert_all_last.
  - f_equal. rewrite <- size_dom, upsert_all_dom, dom_empty_L.
    by rewrite (left_id_L ∅ (∪)).
Qed.


Lemma max_rowid_in (t : gmap Z issue_row) (m : Z) :
  max_rowid t = Some m -> is_Some (t !! m).
Proof.
  unfold max_rowid. intros H.
  assert (m ∈ fst <$> map_to_list t) as Hin.
  { revert m H. induction (fst <$> map_to_list t) as [|k l IH]; intros m H; [done|].
    cbn [foldr] in H. injection H as <-.
    destruct (foldr _ None l) as [m'|]; [|apply list_elem_of_here].
    destruct (Z.max_spec k m') as [[_ ->]|[_ ->]];
      [apply list_elem_of_further; by apply IH | apply list_elem_of_here]. }
  apply list_elem_of_fmap in Hin as ([k r] & -> & Hin).
  apply elem_of_map_to_list in Hin. by exists r.
Qed.

Lemma insert_or_replace_grows (t t' : gmap Z issue_row) (rand : nat -> Z)
    (params : list value) (k : Z) :
  insert_or_replace rowid_of_text t rand params = Return t' ->
  is_Some (t !! k) -> is_Some (t' !! k).
Proof.
  unfold insert_or_replace. intros H Hk.
  destruct params as [|i cells]; [done|].
  destruct (stored_row cells) as [r|]; [|done].
  destruct (forallb bindable (i :: cells)); [|done].
  destruct (rowid_for _ t rand i) as [k'|]; [|done].
  injection H as <-.
  destruct (decide (k' = k)) as [->|Hne];
    [by rewrite lookup_insert_eq | by rewrite lookup_insert_ne].
Qed.

Lemma executemany_grows (rows : list (list value)) (k : Z) :
  forall w w',
    executemany rowid_of_text rows w = (Return tt, w') ->
    is_Some (issues (work w) !! k) -> is_Some (issues (work w') !! k).
Proof.
  induction rows as [|params rows IH]; intros w w' H Hk; cbn [executemany] in H.
  - by injection H as <-.
  - unfold bind at 1 in H.
    destruct (execute_insert _ params w) as [[[]|e] u] eqn:E; [|done].
    apply (IH _ _ H). revert E. unfold execute_insert, bind.
    destruct (io_step w) as [[[]|e] u0] eqn:E0; [|done].
    apply io_step_return in E0 as ->. cbn [work set_io_steps].
    destruct (insert_or_replace _ _ _ params) as [t|e] eqn:Et; [|done].
    intros [= <-]. cbn. by eapply insert_or_replace_grows.
Qed.

(** Below the largest key the engine draws no random number: the row goes
    where its parameters say. *)
Lemma insert_or_replace_same (t t1 t2 : gmap Z issue_row) (rand1 rand2 : nat -> Z)
    (params : list value) :
  insert_or_replace rowid_of_text t rand1 params = Return t1 ->
  insert_or_replace rowid_of_text t rand2 params = Return t2 ->
  (forall k, 2 ^ 63 - 1 <= k -> t !! k = None) ->
  t1 = t2.
Proof.
  unfold insert_or_replace. intros H1 H2 Hmax.
  destruct params as [|i cells]; [done|].
  destruct (stored_row cells) as [r|]; [|done].
  destruct (forallb bindable (i :: cells)); [|done].
  assert (rowid_for rowid_of_text t rand1 i = rowid_for rowid_of_text t rand2 i) as Hk.
  { destruct i as [|z|s]; [|done|done]. cbn [rowid_for].
    destruct (max_rowid t) as [m|] eqn:Hm; [|done].
    destruct (m <? 2 ^ 63 - 1) eqn:Hlt; [done|].
    apply Z.ltb_ge in Hlt. apply max_rowid_in in Hm as [r' Hr'].
    rewrite (Hmax m Hlt) in Hr'. done. }
  rewrite Hk in H1. destruct (rowid_for _ t rand2 i); [|done]. congruence.
Qed.

Lemma executemany_same (rows : list (list value)) :
  forall w1 w1' w2 w2',
    executemany rowid_of_text rows w1 = (Return tt, w1') ->
    executemany rowid_of_text rows w2 = (Return tt, w2') ->
    issues (work w1) = issues (work w2) ->
    (forall k, 2 ^ 63 - 1 <= k -> issues (work w1') !! k = None) ->
    issues (work w1') = issues (work w2').
Proof.
  induction rows as [|params rows IH]; intros w1 w1' w2 w2' H1 H2 Heq Hmax;
    cbn [executemany] in H1, H2.
  - by injection H1 as <-; injection H2 as <-.
  - unfold bind at 1 in H1. unfold bind at 1 in H2.
    destruct (execute_insert _ params w1) as [[[]|e1] u1] eqn:E1; [|done].
    destruct (execute_insert _ params w2) as [[[]|e2] u2] eqn:E2; [|done].
    eapply IH; [exact H1 | exact H2 | | exact Hmax].
    assert (forall k, 2 ^ 63 - 1 <= k -> issues (work u1) !! k = None) as Hu1.
    { intros k Hk. apply eq_None_not_Some. intros Hin.
      apply (executemany_grows _ _ _ _ H1) in Hin.
      rewrite (Hmax k Hk) in Hin. by destruct Hin. }
    revert E1 E2. unfold execute_insert, bind.
    destruct (io_step w1) as [[[]|e1] v1] eqn:F1; [|done].
    destruct (io_step w2) as [[[]|e2] v2] eqn:F2; [|done].
    apply io_step_return in F1 as ->. apply io_step_return in F2 as ->.
    cbn [work set_io_steps]. rewrite <- Heq.
    destruct (insert_or_replace _ _ _ params) as [t1|] eqn:Et1; [|done].
    destruct (insert_or_replace _ _ (entropy (set_io_steps _ w2) _) params)
      as [t2|] eqn:Et2; [|done].
    intros [= <-] [= <-]. cbn.
    eapply insert_or_replace_same; [exact Et1 | exact Et2 |].
    intros k Hk. apply eq_None_not_Some. intros Hin.
    apply (insert_or_replace_grows _ _ _ _ _ Et1) in Hin.
    specialize (Hu1 k Hk). cbn in Hu1. rewrite Hu1 in Hin. by destruct Hin.
Qed.

(** The cells a successful [safe_replace_issues] leaves depend on the rows
    alone, whatever the ids are (integers, texts or [None]) and whatever
    the store held before, as long as the keys in use stay below the
    largest key 2^63-1, where the engine would pick a key at random: two
    successful calls with the same rows return the same count and leave the
    same ids and, under each id, the same written cells. The engine's
    [created_at] and [updated_at] are set anew by every call and are not
    compared. *)
Theorem safe_replace_issues_idempotent (items : list dict)
    (w1 w1' w2 w2' : world) (n1 n2 : Z) :
  safe_replace_issues rowid_of_text items w1 = (Return n1, w1') ->
  safe_replace_issues rowid_of_text items w2 = (Return n2, w2') ->
  items <> [] ->
  (forall k, 2 ^ 63 - 1 <= k -> written_cells w1' !! k = None) ->
  n1 = n2 /\ written_cells w1' = written_cells w2'.
Proof.
  unfold written_cells. intros H1 H2 Hne Hmax.
  apply safe_replace_return in H1 as (-> & u1 & v1 & He1 & _ & Hm1 & Hc1); [|done].
  apply safe_replace_return in H2 as (-> & u2 & v2 & He2 & _ & Hm2 & Hc2); [|done].
  split; [done|]. rewrite Hc1, Hc2. rewrite Hc1 in Hmax.
  eapply executemany_same; [exact Hm1 | exact Hm2 | congruence | exact Hmax].
Qed.

(** [clear_issues] empties the table and leaves the ledger; when it raises,
    nothing has been committed. *)
Theorem clear_issues_outcome (w w' : world) (r : outcome unit) :
  clear_issues w = (r, w') ->
  match r with
  | Return _ =>
      issues (committed w') = ∅
      /\ sync_log (committed w') = sync_log (committed w)
      /\ get_all_issues w' = []
  | Raise _ => committed w' = committed w
  end.
Proof.
  unfold clear_issues. unfold bind at 1.
  destruct (sqlite3_connect w) as [[[]|e] w1] eqn:E1.
  2: { apply sqlite3_connect_frame in E1. by intros [= <- <-]. }
  apply sqlite3_connect_return in E1 as ->.
  unfold try_finally. unfold bind at 1.
  match goal with |- context [execute_delete ?x] =>
    destruct (execute_delete x) as [[[]|e] w2] eqn:E2 end.
  2: { apply execute_delete_frame in E2. intros [= <- <-]. cbn in *. congruence. }
  apply execute_delete_return in E2 as ->.
  match goal with |- context [conn_commit ?x] =>
    destruct (conn_commit x) as [[[]|e] w3] eqn:E3 end.
  - apply conn_commit_return in E3 as ->. intros [= <- <-].
    split; [done|]. split; [done|]. reflexivity.
  - apply conn_commit_raise in E3. intros [= <- <-]. cbn in *. congruence.
Qed.

(** [log_sync] never touches the issues and only ever appends to the
    ledger: when it returns, the ledger has grown by the record it was
    given, placed last; when it raises, the committed database is as
    before. *)
Theorem log_sync_appends (n : Z) (s m : string) (w w' : world) (r : outcome unit) :
  log_sync n s m w = (r, w') ->
  issues (committed w') = issues (committed w)
  /\ match r with
     | Return _ =>
         sync_log (committed w') = sync_log (committed w) ++ [mk_sync_record n s m]
     | Raise _ => sync_log (committed w') = sync_log (committed w)
     end.
Proof.
  intros H. apply log_sync_outcome in H.
  destruct r; [by destruct H | by rewrite H].
Qed.

Lemma key_of_row_dict (kr : Z * issue_row) : key_of (row_dict kr) = fst kr.
Proof. reflexivity. Qed.

Lemma cells_of_row_dict (kr : Z * issue_row) : cells_of (row_dict kr) = snd kr.
Proof.
  destruct kr as [k [d ch os c iss o ra p r pc]].
  unfold cells_of.
  change (get (row_dict (k, mk_issue_row d ch os c iss o ra p r pc)) "date")
    with (cell_value d).
  change (get (row_dict (k, mk_issue_row d ch os c iss o ra p r pc)) "channel")
    with (cell_value ch).
  change (get (row_dict (k, mk_issue_row d ch os c iss o ra p r pc)) "original_source")
    with (cell_value os).
  change (get (row_dict (k, mk_issue_row d ch os c iss o ra p r pc)) "category")
    with (cell_value c).
  change (get (row_dict (k, mk_issue_row d ch os c iss o ra p r pc)) "issue")
    with (cell_value iss).
  change (get (row_dict (k, mk_issue_row d ch os c iss o ra p r pc)) "owner")
    with (cell_value o).
  change (get (row_dict (k, mk_issue_row d ch os c iss o ra p r pc)) "reply_approach")
    with (cell_value ra).
  change (get (row_dict (k, mk_issue_row d ch os c iss o ra p r pc)) "progress")
    with (cell_value p).
  change (get (row_dict (k, mk_issue_row d ch os c iss o ra p r pc)) "result")
    with (cell_value r).
  change (get (row_dict (k, mk_issue_row d ch os c iss o ra p r pc)) "problem_category")
    with (cell_value pc).
  by destruct d, ch, os, c, iss, o, ra, p, r, pc.
Qed.

(** Reading and writing back: when [safe_replace_issues] succeeds on rows
    that carry, in the eleven columns it writes, what [get_all_issues] read
    from a store (whatever else they carry), in any world, it leaves the ids
    and the written cells that were read, as many rows as were read, and
    returns their number. The engine's [created_at] and [updated_at] are set
    anew and are not compared. *)
Theorem get_all_issues_write_back (items : list dict) (w u u' : world) (n : Z) :
  row_tuple <$> items = row_tuple <$> get_all_issues w ->
  safe_replace_issues rowid_of_text items u = (Return n, u') ->
  items <> [] ->
  written_cells u' = written_cells w
  /\ n = get_issues_count w
  /\ get_issues_count u' = get_issues_count w.
Proof.
  unfold written_cells. intros Hrows H Hne.
  assert (length items = length (get_all_issues w)) as Hlen.
  { rewrite <- (length_fmap row_tuple items), Hrows. apply length_fmap. }
  assert (issues (committed u') = issues (committed w)) as Heq.
  { apply safe_replace_return in H as (_ & u2 & u3 & Hempty & _ & Hmany & Hcommit);
      [|done].
    rewrite Hrows in Hmany.
    apply executemany_return in Hmany as [Ht _].
    2: { apply Forall_forall. intros d (kr & -> & _)%list_elem_of_fmap.
         by exists (fst kr). }
    rewrite Hempty in Ht. rewrite Hcommit, Ht.
    set (l := order_by_id_desc (issues (committed w))).
    assert (key_of <$> get_all_issues w = l.*1) as Hkeys.
    { unfold get_all_issues. fold l. rewrite <- list_fmap_compose.
      apply list_fmap_ext. intros i kr _. apply key_of_row_dict. }
    assert (NoDup (key_of <$> get_all_issues w)) as Hnd.
    { rewrite Hkeys. unfold l. rewrite order_by_id_desc_perm.
      apply NoDup_fst_map_to_list. }
    apply map_eq. intros k.
    destruct (issues (committed w) !! k) as [r|] eqn:Hk.
    - apply elem_of_order_by_id_desc in Hk.
      destruct (foldl_insert_distinct (get_all_issues w) ∅ Hnd) as [_ Hlook].
      { intros d _. apply lookup_empty. }
      specialize (Hlook (row_dict (k, r))).
      rewrite key_of_row_dict, cells_of_row_dict in Hlook. apply Hlook.
      unfold get_all_issues. by apply list_elem_of_fmap_2.
    - rewrite foldl_insert_other; [apply lookup_empty|].
      rewrite Hkeys. intros ([k' r] & Hk' & Hin)%list_elem_of_fmap.
      cbn in Hk'. subst k'. apply elem_of_order_by_id_desc in Hin. congruence. }
  split; [exact Heq|]. split; [|unfold get_issues_count; by rewrite Heq].
  apply safe_replace_return in H as [-> _]; [|done].
  unfold get_issues_count. by rewrite Hlen, length_get_all_issues.
Qed.

(** Of the columns the program writes, every row read from the store has
    all eleven: under [id] an integer, the key of a stored row, and under
    each of the ten others a text or [None], never an integer. (A row read
    also carries the engine's [created_at] and [updated_at], which the model
    leaves out.) *)
Theorem get_all_issues_shape (w : world) (d : dict) :
  d ∈ get_all_issues w ->
  (forall col, col ∈ columns -> is_Some (d !! col))
  /\ (exists k, d !! "id" = Some (VInt k) /\ is_Some (issues (committed w) !! k))
  /\ (forall col v, col ∈ tail columns -> d !! col = Some v ->
        v = VNone \/ exists s, v = VStr s).
Proof.
  clear rowid_of_text.
  intros ([k r] & -> & Hin)%list_elem_of_fmap. split; [|split].
  - intros col. unfold row_dict.
    rewrite <- elem_of_dom, !dom_insert_L, dom_empty_L. unfold columns.
    rewrite !elem_of_union, !elem_of_singleton, !elem_of_cons, elem_of_nil,
      elem_of_empty.
    tauto.
  - exists k. split; [done|]. apply elem_of_order_by_id_desc in Hin. by exists r.
  - intros col v Hcol Hv. cbn [tail columns] in Hcol. destruct r.
    repeat (apply elem_of_cons in Hcol as [->|Hcol];
            [vm_compute in Hv; injection Hv as <-; case_match; eauto|]).
    by apply elem_of_nil in Hcol.
Qed.

End storage_more_properties.

(** ** The pipeline, continued *)

Section pipeline_properties.

Context (rowid_of_text : string -> option Z).

Lemma init_database_frame (w w' : world) (r : outcome unit) :
  init_database w = (r, w') -> committed w' = committed w.
Proof.
  unfold init_database. unfold bind at 1. unfold bind at 1.
  destruct (sqlite3_connect w) as [[[]|e] w1] eqn:E1.
  2: { apply sqlite3_connect_frame in E1. by intros [= <- <-]. }
  apply sqlite3_connect_return in E1 as ->. unfold bind at 1.
  match goal with |- context [io_step ?x] =>
    destruct (io_step x) as [[[]|e] w2] eqn:E2 end.
  2: { apply io_step_frame in E2 as [Ec _]. by intros [= <- <-]. }
  apply io_step_return in E2 as ->.
  match goal with |- context [conn_commit ?x] =>
    destruct (conn_commit x) as [[[]|e] w3] eqn:E3 end.
  - apply conn_commit_return in E3 as ->. by intros [= <- <-].
  - apply conn_commit_raise in E3. by intros [= <- <-].
Qed.

Lemma execute_insert_log (params : list value) (w w' : world) (r : outcome unit) :
  execute_insert rowid_of_text params w = (r, w') ->
  sync_log (work w') = sync_log (work w).
Proof.
  unfold execute_insert, bind.
  destruct (io_step w) as [[[]|e] w1] eqn:E; apply io_step_frame in E as [_ Ew].
  - destruct (insert_or_replace _ _ _); intros [= <- <-]; cbn; congruence.
  - intros [= <- <-]. congruence.
Qed.

Lemma executemany_log (rows : list (list value)) :
  forall (w w' : world) (r : outcome unit),
    executemany rowid_of_text rows w = (r, w') ->
    sync_log (work w') = sync_log (work w).
Proof.
  induction rows as [|params rows IH]; intros w w' r H; cbn [executemany] in H.
  - by injection H as <- <-.
  - unfold bind in H.
    destruct (execute_insert _ params w) as [[[]|e] w1] eqn:E;
      apply execute_insert_log in E.
    + apply IH in H. congruence.
    + by injection H as <- <-.
Qed.

Lemma safe_replace_ledger (items : list dict) (w w' : world) (r : outcome Z) :
  safe_replace_issues rowid_of_text items w = (r, w') ->
  sync_log (committed w') = sync_log (committed w).
Proof.
  intros H. destruct r as [n|e].
  - destruct (decide (items = [])) as [-> | Hne]; [by injection H as <- <-|].
    apply safe_replace_return in H as (_ & w2 & w3 & _ & Hlog & Hmany & Hcommit);
      [|done].
    apply executemany_log in Hmany. congruence.
  - apply safe_replace_raise_intact in H. by rewrite H.
Qed.

(** The ledger and the outcome of the [try] block of [sync]. *)
Lemma sync_body_ledger (w w' : world) (r : outcome bool) :
  sync_body rowid_of_text w = (r, w') ->
  match r with
  | Return b =>
      b = true
      /\ exists n,
           sync_log (committed w')
           = sync_log (committed w) ++ [mk_sync_record n "success" "Full sync completed"]
  | Raise _ => sync_log (committed w') = sync_log (committed w)
  end.
Proof.
  unfold sync_body. unfold bind at 1.
  destruct (init_database w) as [[[]|e] w0] eqn:E0; apply init_database_frame in E0.
  2: { intros [= <- <-]. by rewrite E0. }
  unfold bind at 1.
  destruct (fetch_google_sheets_data w0) as [[raw|e] w1] eqn:E1;
    apply fetch_cases in E1 as (_ & _ & _ & _ & Hc1 & _).
  2: { intros [= <- <-]. congruence. }
  unfold bind at 1.
  destruct raw as [rows|]; [|intros [= <- <-]; congruence].
  unfold ret at 1. unfold bind at 1.
  destruct (safe_replace_issues _ _ w1) as [[n|e] w2] eqn:E2;
    apply safe_replace_ledger in E2.
  2: { intros [= <- <-]. congruence. }
  unfold bind at 1.
  destruct (log_sync n "success" "Full sync completed" w2) as [[[]|e] w3] eqn:E3;
    apply log_sync_outcome in E3.
  - intros [= <- <-]. split; [done|]. exists n. destruct E3 as [-> _]. congruence.
  - intros [= <- <-]. rewrite E3. congruence.
Qed.

(** Every run of [sync] leaves the earlier ledger records in place and
    appends at most one: a success record when it returns [True], a
    (0, failed) record when it returns [False], none when it raises. *)
Theorem sync_ledger (w w' : world) (r : outcome bool) :
  sync rowid_of_text w = (r, w') ->
  match r with
  | Return true =>
      exists n,
        sync_log (committed w')
        = sync_log (committed w) ++ [mk_sync_record n "success" "Full sync completed"]
  | Return false =>
      exists msg,
        sync_log (committed w')
        = sync_log (committed w) ++ [mk_sync_record 0 "failed" msg]
  | Raise _ => sync_log (committed w') = sync_log (committed w)
  end.
Proof.
  unfold sync, try_except.
  destruct (sync_body rowid_of_text w) as [[b|e] w1] eqn:E1;
    apply sync_body_ledger in E1.
  - intros [= <- <-]. by destruct E1 as [-> ?].
  - unfold bind.
    destruct (log_sync 0 "failed" (exn_msg e) w1) as [[[]|e'] w2] eqn:E2;
      apply log_sync_outcome in E2; intros [= <- <-].
    + exists (exn_msg e). destruct E2 as [-> _]. congruence.
    + rewrite E2. congruence.
Qed.

(** A run of [sync] in which the schema set-up, the fetch or the replace
    raises leaves the issues as they were, and does not return [True]. *)
Theorem sync_failure_keeps_issues (w w0 w1 w' : world) (e : exn) (r : outcome bool) :
  (init_database w = (Raise e, w1)
   \/ init_database w = (Return tt, w0)
      /\ (fetch_google_sheets_data w0 = (Raise e, w1)
          \/ exists raw wf,
               fetch_google_sheets_data w0 = (Return (Some raw), wf)
               /\ safe_replace_issues rowid_of_text (transform_data raw) wf
                  = (Raise e, w1))) ->
  sync rowid_of_text w = (r, w') ->
  issues (committed w') = issues (committed w) /\ r <> Return true.
Proof.
  intros Hfail.
  assert (sync_body rowid_of_text w = (Raise e, w1) /\ committed w1 = committed w)
    as [Hbody Hc].
  { destruct Hfail as [Hinit | [Hinit Hstep]].
    - split; [|by apply init_database_frame in Hinit].
      unfold sync_body. unfold bind at 1. by rewrite Hinit.
    - split; [by eapply sync_body_raise|].
      apply init_database_frame in Hinit.
      destruct Hstep as [Hfetch | (raw & wf & Hfetch & Hreplace)].
      + apply fetch_cases in Hfetch as (_ & _ & _ & _ & Hc & _). congruence.
      + apply fetch_cases in Hfetch as (_ & _ & _ & _ & Hc & _).
        apply safe_replace_raise_intact in Hreplace. congruence. }
  unfold sync, try_except. rewrite Hbody. unfold bind.
  destruct (log_sync 0 "failed" (exn_msg e) w1) as [[[]|e'] w2] eqn:E2;
    apply log_sync_outcome in E2; intros [= <- <-].
  - destruct E2 as [_ ->]. by rewrite Hc.
  - by rewrite E2, Hc.
Qed.

End pipeline_properties.

(** ** Runs on a healthy store *)

Section healthy_runs.

Context (rowid_of_text : string -> option Z).

Lemma same_outside_healthy (w w' : world) :
  same_outside w w' -> healthy w -> healthy w'.
Proof. intros (Hf & _) Hw n. rewrite Hf. apply Hw. Qed.

Lemma same_outside_trans (w1 w2 w3 : world) :
  same_outside w1 w2 -> same_outside w2 w3 -> same_outside w1 w3.
Proof.
  unfold same_outside. intros (?&?&?&?&?) (?&?&?&?&?). repeat split; congruence.
Qed.

Lemma execute_insert_healthy (item : dict) (w : world) :
  healthy w -> storable item ->
  execute_insert rowid_of_text (row_tuple item) w
  = (Return tt,
     set_work (set_issues (<[key_of item := cells_of item]> (issues (work w))) (work w))
              (set_io_steps (S (io_steps w)) w)).
Proof.
  intros Hw [[k Hk] Hbind]. unfold execute_insert, bind.
  rewrite (io_step_no_fault w (Hw _)). cbv beta iota.
  unfold insert_or_replace.
  change (row_tuple item) with
    [get item "id"; get item "date"; get item "channel";
     get item "original_source"; get item "category"; get item "issue";
     get item "owner"; get item "reply_approach"; get item "progress";
     get item "result"; get item "problem_category"] in *.
  cbn [stored_row]. rewrite Hbind. unfold key_of. rewrite Hk. reflexivity.
Qed.

Lemma executemany_healthy (items : list dict) :
  forall w : world,
    healthy w -> Forall storable items ->
    exists w',
      executemany rowid_of_text (row_tuple <$> items) w = (Return tt, w')
      /\ same_outside w w' /\ committed w' = committed w
      /\ sync_log (work w') = sync_log (work w)
      /\ issues (work w')
         = foldl (fun t item => <[key_of item := cells_of item]> t)
                 (issues (work w)) items.
Proof.
  induction items as [|item items IH]; intros w Hw Hok.
  - exists w. by repeat split.
  - apply Forall_cons in Hok as [Hitem Hok].
    cbn [fmap list_fmap executemany]. unfold bind.
    rewrite (execute_insert_healthy item w Hw Hitem).
    match goal with |- context [executemany _ _ ?x] =>
      destruct (IH x) as (w' & Hrun & Hout & Hc & Hl & Hi); [exact Hw | exact Hok |] end.
    exists w'. split; [exact Hrun|]. split; [exact Hout|]. by repeat split.
Qed.

Lemma safe_replace_healthy (items : list dict) (w : world) :
  items <> [] -> healthy w -> Forall storable items ->
  exists w',
    safe_replace_issues rowid_of_text items w = (Return (Z.of_nat (length items)), w')
    /\ issues (committed w')
       = foldl (fun t item => <[key_of item := cells_of item]> t) ∅ items
    /\ sync_log (committed w') = sync_log (committed w)
    /\ same_outside w w'.
Proof.
  intros Hne Hw Hok. unfold safe_replace_issues.
  rewrite bool_decide_eq_false_2 by done. cbv zeta.
  unfold sqlite3_connect, try_finally, try_except, replace_transaction,
    execute_delete, conn_commit.
  unfold bind at 1. unfold bind at 1.
  rewrite (io_step_no_fault w (Hw _)). cbv beta iota.
  unfold bind at 1. unfold bind at 1.
  rewrite io_step_no_fault by apply Hw. cbv beta iota.
  unfold bind at 1.
  match goal with |- context [executemany _ _ ?x] =>
    destruct (executemany_healthy items x) as (w3 & Hrun & Hout & Hc & Hl & Hi);
    [exact Hw | exact Hok |] end.
  rewrite Hrun. cbv beta iota. unfold bind at 1. unfold bind at 1.
  rewrite io_step_no_fault by (destruct Hout as [-> _]; apply Hw). cbv beta iota.
  unfold ret. rewrite length_fmap. eexists. split; [reflexivity|].
  cbn in *. destruct Hout as (?&?&?&?&?). by repeat split.
Qed.

(** On a healthy store [safe_replace_issues] returns: for a non-empty list
    of storable rows (an integer id, every integer within 64 bits) it
    returns the length of the list, leaves a table built from the rows
    alone, and leaves the ledger as it was. *)
Theorem safe_replace_issues_returns (items : list dict) (w : world) :
  items <> [] -> healthy w -> Forall storable items ->
  exists w',
    safe_replace_issues rowid_of_text items w = (Return (Z.of_nat (length items)), w')
    /\ issues (committed w')
       = foldl (fun t item => <[key_of item := cells_of item]> t) ∅ items
    /\ sync_log (committed w') = sync_log (committed w)
    /\ same_outside w w'.
Proof. apply safe_replace_healthy. Qed.

Lemma init_database_healthy (w : world) :
  healthy w ->
  exists w', init_database w = (Return tt, w')
             /\ committed w' = committed w /\ same_outside w w'.
Proof.
  intros Hw. unfold init_database, sqlite3_connect, conn_commit, bind.
  rewrite (io_step_no_fault w (Hw _)). cbv beta iota.
  rewrite io_step_no_fault by apply Hw. cbv beta iota.
  rewrite io_step_no_fault by apply Hw. cbv beta iota.
  eexists. split; [reflexivity|]. by repeat split.
Qed.

Lemma log_sync_returns (n : Z) (s m : string) (w : world) :
  healthy w -> bindable (VInt n) = true ->
  exists w', log_sync n s m w = (Return tt, w') /\ same_outside w w'.
Proof.
  intros Hw Hn. unfold log_sync, sqlite3_connect, conn_commit, try_finally, bind.
  rewrite (io_step_no_fault w (Hw _)). cbv beta iota.
  rewrite io_step_no_fault by apply Hw. cbv beta iota.
  rewrite Hn. cbv beta iota.
  rewrite io_step_no_fault by apply Hw. cbv beta iota.
  eexists. split; [reflexivity|]. by repeat split.
Qed.

(** A run that must succeed: on a healthy store, when the sheet answers the
    first call and every kept row is storable, [sync] returns [True]
    without sleeping, after one call to the sheet; the ledger grows by the
    record (number of kept rows, success); the table is built from the
    kept rows alone, or is left as it was when no row is kept. *)
Theorem sync_returns_true (w : world) (raw_data : list dict) :
  healthy w ->
  remote w (fetches w) = Return raw_data ->
  Forall storable (transform_data raw_data) ->
  Z.of_nat (length (transform_data raw_data)) < 2 ^ 63 ->
  exists w',
    sync rowid_of_text w = (Return true, w')
    /\ sync_log (committed w')
       = sync_log (committed w)
         ++ [mk_sync_record (Z.of_nat (length (transform_data raw_data)))
               "success" "Full sync completed"]
    /\ issues (committed w')
       = (if decide (transform_data raw_data = []) then issues (committed w)
          else foldl (fun t item => <[key_of item := cells_of item]> t) ∅
                     (transform_data raw_data))
    /\ slept w' = slept w
    /\ fetches w' = S (fetches w).
Proof.
  intros Hw Hremote Hok Hlen.
  destruct (init_database_healthy w Hw) as (w0 & Hinit & Hc0 & Ho0).
  pose proof (same_outside_healthy _ _ Ho0 Hw) as Hw0.
  destruct Ho0 as (Hf0 & Hr0 & Hn0 & Hs0 & _).
  assert (fetch_google_sheets_data w0
          = (Return (Some raw_data), set_fetches (S (fetches w0)) w0)) as Hfetch.
  { unfold fetch_google_sheets_data, retry_on_error.
    change (seq 0 MAX_RETRIES) with [0; 1; 2]%nat.
    apply retry_loop_return. unfold _connect_and_fetch. by rewrite Hr0, Hn0, Hremote. }
  set (w1 := set_fetches (S (fetches w0)) w0) in *.
  assert (healthy w1) as Hw1 by exact Hw0.
  assert (exists w2,
             safe_replace_issues rowid_of_text (transform_data raw_data) w1
             = (Return (Z.of_nat (length (transform_data raw_data))), w2)
             /\ issues (committed w2)
                = (if decide (transform_data raw_data = []) then issues (committed w)
                   else foldl (fun t item => <[key_of item := cells_of item]> t) ∅
                              (transform_data raw_data))
             /\ sync_log (committed w2) = sync_log (committed w)
             /\ same_outside w1 w2) as (w2 & Hrep & Hi2 & Hl2 & Ho2).
  { destruct (decide (transform_data raw_data = [])) as [Hempty | Hne].
    - exists w1. rewrite Hempty. split; [reflexivity|].
      split; [cbn; by rewrite Hc0|]. split; [cbn; by rewrite Hc0|]. by repeat split.
    - destruct (safe_replace_healthy _ w1 Hne Hw1 Hok)
        as (w2 & Hrep & Hi & Hl & Ho).
      exists w2. split; [exact Hrep|]. split; [exact Hi|].
      split; [rewrite Hl; cbn; by rewrite Hc0 | exact Ho]. }
  pose proof (same_outside_healthy _ _ Ho2 Hw1) as Hw2.
  destruct (log_sync_returns (Z.of_nat (length (transform_data raw_data)))
              "success" "Full sync completed" w2 Hw2) as (w3 & Hlog & Ho3).
  { cbn [bindable]. apply andb_true_intro. split; [apply Z.leb_le | apply Z.ltb_lt]; lia. }
  exists w3. split.
  - unfold sync, try_except, sync_body. unfold bind at 1. rewrite Hinit.
    unfold bind at 1. rewrite Hfetch. unfold bind at 1. unfold ret at 1.
    unfold bind at 1. fold w1. rewrite Hrep. unfold bind at 1. by rewrite Hlog.
  - pose proof (log_sync_outcome _ _ _ _ _ _ Hlog) as [Hl3 Hi3]. cbn beta iota in *.
    destruct Ho2 as (_ & _ & Hn2 & Hs2 & _), Ho3 as (_ & _ & Hn3 & Hs3 & _).
    split; [congruence|]. split; [congruence|].
    split; [rewrite Hs3, Hs2; cbn; exact Hs0|].
    rewrite Hn3, Hn2. cbn. by rewrite Hn0.
Qed.

End healthy_runs.

(** ** Read operations, continued *)

Lemma row_dict_inj (kr kr' : Z * issue_row) : row_dict kr = row_dict kr' -> kr = kr'.
Proof.
  intros H. destruct kr as [k r], kr' as [k' r'].
  pose proof (key_of_row_dict (k, r)) as Hk. rewrite H, key_of_row_dict in Hk.
  pose proof (cells_of_row_dict (k, r)) as Hr. rewrite H, cells_of_row_dict in Hr.
  cbn in Hk, Hr. by subst.
Qed.

Lemma list_filter_sublist {A} (f : A -> bool) (l : list A) :
  List.filter f l `sublist_of` l.
Proof.
  induction l as [|x l IH]; cbn; [done|].
  destruct (f x); by constructor.
Qed.

Lemma select_where_sublist (conds : list (issue_row -> bool)) (w : world) :
  select_where conds w `sublist_of` get_all_issues w.
Proof. unfold select_where, get_all_issues. apply fmap_sublist, list_filter_sublist. Qed.

Lemma elem_of_select_where (conds : list (issue_row -> bool)) (w : world)
    (k : Z) (r : issue_row) :
  issues (committed w) !! k = Some r ->
  row_dict (k, r) ∈ select_where conds w
  <-> forallb (fun test => test r) conds = true.
Proof.
  intros Hk. unfold select_where. rewrite list_elem_of_fmap. split.
  - intros (kr & Heq%row_dict_inj & Hin). subst kr.
    by apply list_elem_of_In, filter_In in Hin as [_ Hin].
  - intros Hall. exists (k, r). split; [done|].
    apply list_elem_of_In, filter_In. split; [|done].
    by apply list_elem_of_In, elem_of_order_by_id_desc.
Qed.

Lemma forallb_condition (arg : option string) (test : string -> issue_row -> bool)
    (r : issue_row) :
  forallb (fun t => t r) (condition arg test) = true
  <-> forall s, arg = Some s -> s <> "" -> test s r = true.
Proof.
  destruct arg as [s|]; cbn; [|by split].
  destruct (String.eqb_spec s "") as [->|Hs]; cbn.
  - split; [|done]. intros _ s [= <-] Hs. by destruct Hs.
  - rewrite andb_true_r. split; [by intros H s' [= <-] _ | intros H; by apply H].
Qed.

Lemma sql_eq_cell (c : option string) (s : string) :
  sql_eq c s = true <-> Some (cell_value c) = Some (VStr s).
Proof.
  destruct c as [t|]; cbn; [|by split].
  rewrite String.eqb_eq. split; [by intros -> | by intros [= ->]].
Qed.

Lemma sql_ge_cell (c : option string) (s : string) :
  sql_ge c s = true
  <-> exists t, Some (cell_value c) = Some (VStr t) /\ String.le s t.
Proof.
  unfold String.le. destruct c as [t|]; cbn.
  - split; [intros H; exists t; by rewrite H | intros (t' & [= ->] & H); by destruct (String.leb s t')].
  - split; [done | by intros (t & [=] & _)].
Qed.

Lemma sql_le_cell (c : option string) (s : string) :
  sql_le c s = true
  <-> exists t, Some (cell_value c) = Some (VStr t) /\ String.le t s.
Proof.
  unfold String.le. destruct c as [t|]; cbn.
  - split; [intros H; exists t; by rewrite H | intros (t' & [= ->] & H); by destruct (String.leb t' s)].
  - split; [done | by intros (t & [=] & _)].
Qed.

(** [filter_issues] returns rows of [get_all_issues], in the same order: a
    stored row is returned exactly when its category, progress, owner and
    problem_category are the texts given for them, and its date is a text
    not below [date_from] and not above [date_to] in the order of texts
    (character by character, not by calendar); arguments that are [None]
    or empty ask nothing, and a row with no value in a column that is asked
    about is not returned. *)
Theorem filter_issues_selects (c p o df dt pc : option string) (w : world) :
  filter_issues c p o df dt pc w `sublist_of` get_all_issues w
  /\ forall k r,
       issues (committed w) !! k = Some r ->
       let d := row_dict (k, r) in
       d ∈ filter_issues c p o df dt pc w
       <-> (forall s, c = Some s -> s <> "" -> d !! "category" = Some (VStr s))
           /\ (forall s, p = Some s -> s <> "" -> d !! "progress" = Some (VStr s))
           /\ (forall s, o = Some s -> s <> "" -> d !! "owner" = Some (VStr s))
           /\ (forall s, df = Some s -> s <> "" ->
                 exists t, d !! "date" = Some (VStr t) /\ String.le s t)
           /\ (forall s, dt = Some s -> s <> "" ->
                 exists t, d !! "date" = Some (VStr t) /\ String.le t s)
           /\ (forall s, pc = Some s -> s <> "" ->
                 d !! "problem_category" = Some (VStr s)).
Proof.
  split; [apply select_where_sublist|].
  intros k r Hk d. unfold filter_issues, filter_conditions.
  change (d ∈ select_where
            (condition c (fun p r => sql_eq (col_category r) p)
             ++ condition p (fun p r => sql_eq (col_progress r) p)
             ++ condition o (fun p r => sql_eq (col_owner r) p)
             ++ condition df (fun p r => sql_ge (col_date r) p)
             ++ condition dt (fun p r => sql_le (col_date r) p)
             ++ condition pc (fun p r => sql_eq (col_problem_category r) p)) w)
    with (row_dict (k, r) ∈ select_where
            (condition c (fun p r => sql_eq (col_category r) p)
             ++ condition p (fun p r => sql_eq (col_progress r) p)
             ++ condition o (fun p r => sql_eq (col_owner r) p)
             ++ condition df (fun p r => sql_ge (col_date r) p)
             ++ condition dt (fun p r => sql_le (col_date r) p)
             ++ condition pc (fun p r => sql_eq (col_problem_category r) p)) w).
  rewrite (elem_of_select_where _ w k r Hk), !forallb_app, !andb_true_iff,
    !forallb_condition.
  change (d !! "category") with (Some (cell_value (col_category r))).
  change (d !! "progress") with (Some (cell_value (col_progress r))).
  change (d !! "owner") with (Some (cell_value (col_owner r))).
  change (d !! "date") with (Some (cell_value (col_date r))).
  change (d !! "problem_category") with (Some (cell_value (col_problem_category r))).
  setoid_rewrite sql_eq_cell. setoid_rewrite sql_ge_cell. setoid_rewrite sql_le_cell.
  reflexivity.
Qed.

Lemma filter_issues_selects_witness :
  let w := world_with {[1 := row_of "x"; 2 := blank_row; 3 := row_of "y"]} in
  row_dict (1, row_of "x") ∈ filter_issues (Some "x") None (Some "") None (Some "y") None w.
Proof.
  intros w. destruct (filter_issues_selects (Some "x") None (Some "") None (Some "y") None w)
    as [_ H].
  apply (H 1 (row_of "x")); [reflexivity|].
  repeat split; intros s [= <-] Hs; try done.
  exists "x". split; [reflexivity | exact I].
Defined.

(** *** Keyword search *)

Lemma append_nil_l (s : string) : "" +:+ s = s.
Proof. reflexivity. Qed.

Lemma append_cons (c : ascii) (a b : string) : String c a +:+ b = String c (a +:+ b).
Proof. reflexivity. Qed.

Lemma append_nil_r (s : string) : s +:+ "" = s.
Proof. induction s as [|c s IH]; [done|]. by rewrite append_cons, IH. Qed.

Lemma pattern_percent (p s : string) :
  Like.pattern_compare (String "%" p) s
  = Like.pattern_compare p s
    || match s with
       | EmptyString => false
       | String _ s' => Like.pattern_compare (String "%" p) s'
       end.
Proof. by destruct s. Qed.

Lemma pattern_percent_iff (p s : string) :
  Like.pattern_compare (String "%" p) s = true
  <-> exists pre rest, s = pre +:+ rest /\ Like.pattern_compare p rest = true.
Proof.
  induction s as [|c s IH]; rewrite pattern_percent, orb_true_iff.
  - split.
    + intros [H|H]; [|done]. by exists "", "".
    + intros (pre & rest & Heq & H). left.
      destruct pre; rewrite ?append_nil_l, ?append_cons in Heq; [by subst | discriminate].
  - rewrite IH. split.
    + intros [H | (pre & rest & -> & H)].
      * by exists "", (String c s).
      * by exists (String c pre), rest.
    + intros (pre & rest & Heq & H).
      destruct pre as [|c' pre]; rewrite ?append_nil_l, ?append_cons in Heq.
      * left. by subst.
      * right. injection Heq as -> ->. by exists pre, rest.
Qed.

Lemma pattern_plain_iff (k : string) :
  plain k = true ->
  forall p s,
    Like.pattern_compare (k +:+ p) s = true
    <-> exists mid rest,
          s = mid +:+ rest /\ same_text k mid = true
          /\ Like.pattern_compare p rest = true.
Proof.
  induction k as [|c k IH]; intros Hk p s.
  - rewrite append_nil_l. split.
    + intros H. by exists "", s.
    + intros (mid & rest & -> & Hmid & H). by destruct mid.
  - cbn in Hk. repeat (apply andb_prop in Hk as [Hk ?]).
    apply negb_true_iff in Hk.
    assert (Ascii.eqb c "_" = false) as Hu by (by apply negb_true_iff).
    rewrite append_cons. cbn [Like.pattern_compare]. rewrite Hk, Hu. cbn [orb].
    destruct s as [|c' s].
    + split; [done|]. intros (mid & rest & Heq & Hmid & _).
      destruct mid; [done | discriminate].
    + rewrite andb_true_iff, IH by done. split.
      * intros (Hc & mid & rest & -> & Hmid & Hp).
        exists (String c' mid), rest. cbn [same_text]. by rewrite Hc, Hmid.
      * intros (mid & rest & Heq & Hmid & Hp). destruct mid as [|c'' mid]; [done|].
        rewrite append_cons in Heq. cbn [same_text] in Hmid. injection Heq as -> ->.
        apply andb_prop in Hmid as [Hc Hmid]. split; [done|]. by exists mid, rest.
Qed.

Lemma pattern_keyword_iff (k s : string) :
  plain k = true ->
  Like.pattern_compare ("%" +:+ k +:+ "%") s = true <-> occurs_in k s.
Proof.
  intros Hk. change ("%" +:+ k +:+ "%") with (String "%" (k +:+ "%")).
  rewrite pattern_percent_iff. unfold occurs_in. split.
  - intros (pre & rest & -> & H).
    apply (pattern_plain_iff k Hk) in H as (mid & post & -> & Hmid & _).
    by exists pre, mid, post.
  - intros (pre & mid & post & -> & Hmid). exists pre, (mid +:+ post).
    split; [done|]. apply (pattern_plain_iff k Hk). exists mid, post.
    split; [done|]. split; [done|].
    apply pattern_percent_iff. exists post, "". by rewrite append_nil_r.
Qed.

Lemma until_nul_plain (k p : string) :
  plain k = true -> Like.until_nul (k +:+ p) = k +:+ Like.until_nul p.
Proof.
  induction k as [|c k IH]; [done|]. intros Hk. cbn [plain] in Hk.
  repeat (apply andb_prop in Hk as [Hk ?]).
  rewrite append_cons. cbn [Like.until_nul].
  destruct (N_of_ascii c =? 0)%N; [done|]. by rewrite IH, append_cons.
Qed.

Lemma like_keyword (k : string) (cell : option string) :
  plain k = true ->
  Like.like ("%" +:+ k +:+ "%") cell = true
  <-> exists s, cell = Some s /\ occurs_in k (Like.until_nul s).
Proof.
  intros Hk. destruct cell as [s|]; cbn [Like.like].
  - change ("%" +:+ k +:+ "%") with (String "%" (k +:+ "%")).
    cbn [Like.until_nul N_of_ascii N.eqb]. rewrite (until_nul_plain k "%" Hk).
    change (String "%" (k +:+ Like.until_nul "%")) with ("%" +:+ k +:+ "%").
    rewrite (pattern_keyword_iff k _ Hk). split; [by exists s | by intros (? & [= <-] & ?)].
  - split; [done | by intros (? & [=] & _)].
Qed.

Lemma bytes_app (a b : string) : Like.bytes (a +:+ b) = Like.bytes a + Like.bytes b.
Proof.
  induction a as [|c a IH]; [done|]. rewrite append_cons. cbn [Like.bytes].
  rewrite IH. lia.
Qed.

Lemma order_by_id_desc_nil (t : gmap Z issue_row) :
  order_by_id_desc t = [] <-> t = ∅.
Proof.
  split.
  - intros H. apply map_to_list_empty_iff, Permutation_nil_r.
    by rewrite <- order_by_id_desc_perm, H.
  - by intros ->.
Qed.

(** [search_issues] with a keyword of at most 49998 bytes, or on an empty
    table, returns rows of [get_all_issues] in the same order; when the
    keyword has no [%], [_] or NUL character, a stored row is returned
    exactly when the keyword occurs, up to the case of ASCII letters, in
    one of its issue, category, channel, owner, reply_approach and
    problem_category texts (read up to their first NUL). With a longer
    keyword on a table that is not empty it raises. *)
Theorem search_issues_finds (keyword : string) (w : world) :
  (Like.bytes keyword <= 49998 \/ issues (committed w) = ∅ ->
   exists found,
     search_issues keyword w = Return found
     /\ found `sublist_of` get_all_issues w
     /\ (plain keyword = true ->
         forall k r,
           issues (committed w) !! k = Some r ->
           row_dict (k, r) ∈ found
           <-> exists col s,
                 col ∈ searched_columns /\ col r = Some s
                 /\ occurs_in keyword (Like.until_nul s)))
  /\ (49998 < Like.bytes keyword -> issues (committed w) <> ∅ ->
      search_issues keyword w = Raise pattern_too_complex).
Proof.
  unfold search_issues. cbv zeta.
  assert (Like.bytes ("%" +:+ keyword +:+ "%") = Like.bytes keyword + 2) as Hb.
  { rewrite !bytes_app. change (Like.bytes "%") with 1. lia. }
  rewrite Hb. unfold Like.PATTERN_LIMIT. split.
  - intros Hok.
    assert (bool_decide (order_by_id_desc (issues (committed w)) <> [])
            && (50000 <? Like.bytes keyword + 2) = false) as ->.
    { destruct Hok as [Hlen | Hempty].
      - apply andb_false_intro2, Z.ltb_ge. lia.
      - apply andb_false_intro1, bool_decide_eq_false. rewrite Hempty.
        intros H. by apply H. }
    eexists. split; [reflexivity|].
    split; [apply fmap_sublist, list_filter_sublist|].
    intros Hplain k r Hk. rewrite list_elem_of_fmap. split.
    + intros (kr & Heq%row_dict_inj & Hin). subst kr.
      apply list_elem_of_In, filter_In in Hin as [_ Hin]. cbn [snd] in Hin.
      apply existsb_exists in Hin as (col & Hcol & Hlike).
      apply (like_keyword keyword _ Hplain) in Hlike as (s & Hs & Hocc).
      exists col, s. split; [by apply list_elem_of_In | done].
    + intros (col & s & Hcol & Hs & Hocc). exists (k, r). split; [done|].
      apply list_elem_of_In, filter_In.
      split; [by apply list_elem_of_In, elem_of_order_by_id_desc|].
      apply existsb_exists. exists col. split; [by apply list_elem_of_In|].
      apply (like_keyword keyword _ Hplain). by exists s.
  - intros Hlen Hne.
    rewrite bool_decide_eq_true_2 by (by rewrite order_by_id_desc_nil).
    assert ((50000 <? Like.bytes keyword + 2) = true) as -> by (apply Z.ltb_lt; lia).
    reflexivity.
Qed.

Lemma search_issues_finds_witness :
  let w := world_with {[1 := row_of "ROCm crash"; 2 := blank_row]} in
  exists found,
    search_issues "rocm" w = Return found
    /\ row_dict (1, row_of "ROCm crash") ∈ found.
Proof.
  intros w. destruct (search_issues_finds "rocm" w) as [H _].
  destruct H as (found & Hrun & _ & Hfound); [left; vm_compute; discriminate|].
  exists found. split; [exact Hrun|].
  apply (Hfound eq_refl 1 (row_of "ROCm crash")); [reflexivity|].
  exists col_issue, "ROCm crash". split; [apply list_elem_of_here|].
  split; [reflexivity|]. by exists "", "ROCm", " crash".
Defined.

(** *** Distinct values *)

Lemma strictly_sorted {A} (R : relation A) (l : list A) :
  StronglySorted R l -> NoDup l ->
  StronglySorted (fun a b => R a b /\ a <> b) l.
Proof.
  induction 1 as [|a l Hl IH Ha]; intros Hnd; [constructor|].
  apply NoDup_cons in Hnd as [Hfresh Hnd]. constructor; [by apply IH|].
  rewrite Forall_forall in Ha. apply Forall_forall. intros b Hb.
  split; [by apply Ha|]. by intros ->.
Qed.

(** [get_unique_values] answers for the ten text columns; the list it
    returns is in strictly ascending order of texts, so without
    repetition, and holds exactly the non-empty texts some stored row has
    in the column: never the empty text, never [None]. *)
Theorem get_unique_values_sorted (column : string) (w : world) :
  (is_Some (get_unique_values column w) <-> column ∈ tail columns)
  /\ forall col,
       text_column column = Some col ->
       exists l,
         get_unique_values column w = Some l
         /\ StronglySorted (fun a b => String.le a b /\ a <> b) l
         /\ forall s,
              s ∈ l
              <-> s <> ""
                  /\ exists k r, issues (committed w) !! k = Some r /\ col r = Some s.
Proof.
  split.
  - unfold get_unique_values, text_column. cbn [tail columns].
    destruct (list_to_map _ !! column) as [col|] eqn:Hc.
    + apply elem_of_list_to_map_2 in Hc.
      rewrite !elem_of_cons, elem_of_nil.
      repeat (apply elem_of_cons in Hc as [[= -> _]|Hc]; [split; [tauto | by eexists]|]).
      by apply elem_of_nil in Hc.
    + split; [by intros [? ?]|]. intros Hin.
      apply not_elem_of_list_to_map_2 in Hc. by destruct Hc.
  - intros col Hcol. unfold get_unique_values. rewrite Hcol. cbv zeta.
    eexists. split; [reflexivity|]. split.
    + apply strictly_sorted.
      * apply StronglySorted_merge_sort; apply _.
      * rewrite merge_sort_Permutation. apply NoDup_remove_dups.
    + intros s. rewrite merge_sort_Permutation, elem_of_remove_dups.
      rewrite list_elem_of_In, filter_In, <- list_elem_of_In, list_elem_of_omap.
      rewrite negb_true_iff, String.eqb_neq. split.
      * intros [([k r] & Hin & Hs) Hne]. split; [done|].
        apply elem_of_map_to_list in Hin. by exists k, r.
      * intros [Hne (k & r & Hk & Hs)]. split; [|done].
        exists (k, r). split; [by apply elem_of_map_to_list | done].
Qed.

Lemma get_unique_values_sorted_witness :
  let w := world_with {[1 := row_of "b"; 2 := blank_row; 3 := row_of "a"; 4 := row_of "b"]} in
  get_unique_values "owner" w = Some ["a"; "b"].
Proof.
  intros w. destruct (get_unique_values_sorted "owner" w) as [_ H].
  destruct (H col_owner eq_refl) as (l & Hl & _). rewrite Hl.
  vm_compute in Hl. injection Hl as <-. reflexivity.
Defined.

(** *** Statistics *)

Lemma count_by_lookup (key : issue_row -> option string) (rows : list issue_row)
    (v : option string) :
  count_by key rows !! v
  = let n := length (List.filter (fun r => bool_decide (key r = v)) rows) in
    if decide (n = 0%nat) then None else Some n.
Proof.
  induction rows as [|r rows IH]; [done|].
  cbn [count_by foldr List.filter]. fold (count_by key rows).
  destruct (decide (key r = v)) as [<- | Hne].
  - rewrite bool_decide_eq_true_2 by done. rewrite lookup_insert_eq, IH. cbv zeta.
    cbn [length]. destruct (decide (_ = 0%nat)) as [-> | ?]; cbn; [done|].
    by rewrite decide_False by lia.
  - rewrite bool_decide_eq_false_2 by done. by rewrite lookup_insert_ne.
Qed.

Lemma count_by_weighted (key : issue_row -> option string) (rows : list issue_row)
    (weigh : option string -> bool) :
  sum_list_with (fun vn => if weigh (fst vn) then snd vn else 0%nat)
                (map_to_list (count_by key rows))
  = length (List.filter (fun r => weigh (key r)) rows).
Proof.
  induction rows as [|r rows IH]; [done|].
  cbn [count_by foldr List.filter]. fold (count_by key rows).
  set (m := count_by key rows) in *. set (k := key r).
  destruct (m !! k) as [n|] eqn:Hk; cbn [default].
  - rewrite <- (insert_delete_eq m), map_to_list_insert by apply lookup_delete_eq.
    rewrite <- (map_to_list_delete m k n Hk) in IH. cbn in *.
    destruct (weigh k); cbn [length]; lia.
  - rewrite map_to_list_insert by done. cbn.
    destruct (weigh k); cbn [length]; lia.
Qed.

Lemma count_by_sum (key : issue_row -> option string) (rows : list issue_row) :
  sum_list_with snd (map_to_list (count_by key rows)) = length rows.
Proof.
  etransitivity; [exact (count_by_weighted key rows (fun _ => true))|].
  induction rows as [|r l IH]; [done|]. cbn. by rewrite IH.
Qed.

Lemma count_kept (keep : issue_row -> bool) (key : issue_row -> option string)
    (v : option string) (kept : bool) (rows : list issue_row) :
  (forall r, key r = v -> keep r = kept) ->
  length (List.filter (fun r => bool_decide (key r = v)) (List.filter keep rows))
  = if kept then length (List.filter (fun r => bool_decide (key r = v)) rows)
    else 0%nat.
Proof.
  intros Hkeep. induction rows as [|r l IH]; cbn.
  - by destruct kept.
  - destruct (decide (key r = v)) as [Hv | Hv].
    + rewrite (Hkeep r Hv). rewrite (bool_decide_eq_true_2 _ Hv).
      destruct kept; cbn; [|exact IH].
      rewrite (bool_decide_eq_true_2 _ Hv). cbn. by rewrite IH.
    + rewrite (bool_decide_eq_false_2 _ Hv).
      destruct (keep r); cbn; [|exact IH].
      by rewrite (bool_decide_eq_false_2 _ Hv).
Qed.

(** [get_statistics]: the total is the number of stored rows; each of the
    groupings by progress, by category and by owner has one entry per value
    present ([None] for rows without a value), holding the number of rows
    with that value, never zero, and its counts add up to the total; the
    grouping by problem_category has no entry for [None] or for the empty
    text, and otherwise counts the rows of each value. Values are grouped
    as stored: progress is not normalised. *)
Theorem get_statistics_counts (w : world) :
  let st := get_statistics w in
  let rows := snd <$> map_to_list (issues (committed w)) in
  total st = get_issues_count w
  /\ length rows = size (issues (committed w))
  /\ (forall m key,
        (m, key) ∈ [ (by_progress st, col_progress); (by_category st, col_category);
                     (by_owner st, col_owner) ] ->
        (forall v,
            m !! v
            = let n := length (List.filter (fun r => bool_decide (key r = v)) rows) in
              if decide (n = 0%nat) then None else Some n)
        /\ sum_list_with snd (map_to_list m) = length rows)
  /\ by_problem_category st !! None = None
  /\ by_problem_category st !! Some "" = None
  /\ (forall s, s <> "" ->
        by_problem_category st !! Some s
        = let n := length (List.filter
                             (fun r => bool_decide (col_problem_category r = Some s))
                             rows) in
          if decide (n = 0%nat) then None else Some n).
Proof.
  intros st rows.
  split; [done|]. split; [unfold rows; by rewrite length_fmap, length_map_to_list|].
  split.
  { intros m key Hin.
    repeat (apply elem_of_cons in Hin as [[= -> ->]|Hin];
            [split; [intros v; apply count_by_lookup | apply count_by_sum]|]).
    by apply elem_of_nil in Hin. }
  unfold st, get_statistics. cbn [by_problem_category]. fold rows.
  rewrite !count_by_lookup. cbv zeta.
  split; [|split].
  - rewrite (count_kept _ _ None false); [done|]. by intros r ->.
  - rewrite (count_kept _ _ (Some "") false); [done|]. by intros r ->.
  - intros s Hs. rewrite count_by_lookup. cbv zeta.
    rewrite (count_kept _ _ (Some s) true); [done|].
    intros r ->. by apply negb_true_iff, String.eqb_neq.
Qed.

Lemma get_statistics_counts_witness :
  let w := world_with {[1 := row_of "Done"; 2 := blank_row; 3 := row_of "Done"]} in
  by_problem_category (get_statistics w) !! Some "Done" = Some 2%nat.
Proof.
  intros w. destruct (get_statistics_counts w) as (_ & _ & _ & _ & _ & H).
  rewrite (H "Done"); [|discriminate]. vm_compute. reflexivity.
Defined.

(** *** The normalised counts of the dashboard *)

Lemma normalized_counts_step (items : list (option string * nat)) (c : string) :
  forall acc : gmap string nat,
    default 0%nat
      (foldl (fun (normalized_progress : gmap string nat) '(key, count) =>
                let norm_key := normalize_progress (cell_value key) in
                <[norm_key := (default 0 (normalized_progress !! norm_key) + count)%nat]>
                  normalized_progress)
             acc items !! c)
    = (default 0 (acc !! c)
       + sum_list_with
           (fun vn => if bool_decide (normalize_progress (cell_value (fst vn)) = c)
                      then snd vn else 0) items)%nat.
Proof.
  induction items as [|[key count] items IH]; intros acc; cbn [foldl sum_list_with].
  - lia.
  - rewrite IH. cbv zeta. cbn [fst snd]. case_bool_decide as Hc.
    + rewrite Hc, lookup_insert_eq. cbn. lia.
    + rewrite lookup_insert_ne by done. lia.
Qed.

Lemma count_one_of_five (rows : list issue_row) :
  sum_list_with
    (fun c => length (List.filter
                        (fun r => bool_decide
                                    (normalize_progress (cell_value (col_progress r)) = c))
                        rows))
    (PROGRESS_VALUES ++ ["Unknown"])
  = length rows.
Proof.
  induction rows as [|r rows IH]; [done|].
  cbn [PROGRESS_VALUES app sum_list_with List.filter] in *.
  pose proof (normalize_progress_range (cell_value (col_progress r))) as Hin.
  cbn [app PROGRESS_VALUES] in Hin.
  repeat (apply elem_of_cons in Hin as [Hin|Hin];
          [rewrite Hin;
           repeat first [rewrite bool_decide_eq_true_2 by done
                        | rewrite bool_decide_eq_false_2 by done];
           cbn [length]; lia|]).
  by apply elem_of_nil in Hin.
Qed.

(** The metric cards: whatever the order in which the grouped counts are
    read, the count kept under a normalised value (0 when there is none) is
    the number of stored rows whose progress normalises to it, rows without
    progress counting as Unknown; the counts of the five normalised values
    add up to the total. *)
Theorem normalized_counts_by_row (w : world) (items : list (option string * nat)) :
  items ≡ₚ map_to_list (by_progress (get_statistics w)) ->
  let rows := snd <$> map_to_list (issues (committed w)) in
  (forall c,
      default 0%nat (normalized_counts items !! c)
      = length (List.filter
                  (fun r => bool_decide
                              (normalize_progress (cell_value (col_progress r)) = c))
                  rows))
  /\ sum_list_with (fun c => default 0%nat (normalized_counts items !! c))
                   (PROGRESS_VALUES ++ ["Unknown"])
     = Z.to_nat (total (get_statistics w)).
Proof.
  intros Hperm rows.
  assert (forall c,
             default 0%nat (normalized_counts items !! c)
             = length (List.filter
                         (fun r => bool_decide
                                     (normalize_progress (cell_value (col_progress r)) = c))
                         rows)) as Hcount.
  { intros c. unfold normalized_counts. rewrite normalized_counts_step, lookup_empty.
    cbn [default]. rewrite Hperm. cbn [get_statistics by_progress].
    exact (count_by_weighted col_progress rows
             (fun v => bool_decide (normalize_progress (cell_value v) = c))). }
  split; [exact Hcount|].
  cbn [get_statistics total]. rewrite Nat2Z.id.
  rewrite <- length_map_to_list, <- (length_fmap snd). fold rows.
  rewrite <- (count_one_of_five rows).
  cbn [PROGRESS_VALUES app sum_list_with]. by rewrite !Hcount.
Qed.

Lemma normalized_counts_by_row_witness :
  let w := world_with {[1 := row_of "done"; 2 := blank_row; 3 := row_of " Done "]} in
  default 0%nat
    (normalized_counts (map_to_list (by_progress (get_statistics w))) !! "Done")
  = 2%nat.
Proof.
  intros w.
  destruct (normalized_counts_by_row w (map_to_list (by_progress (get_statistics w))))
    as [H _]; [reflexivity|].
  rewrite H. vm_compute. reflexivity.
Defined.

(** ** Instances of the further properties *)

Lemma insert_issues_upsert_witness :
  let items := [item (VInt 2) "a"; item (VInt 2) "b"] in
  let w := world_with {[1 := row_of "old"]} in
  let w' := snd (insert_issues no_text_ids items w) in
  issues (committed w') !! 1 = Some (row_of "old")
  /\ issues (committed w') !! 2 = Some (cells_of (item (VInt 2) "b")).
Proof.
  intros items w w'.
  destruct (insert_issues_upsert no_text_ids items w) as (_ & _ & H).
  destruct (H 2 w') as (_ & _ & Hkeep & Hlast).
  - repeat constructor; by eexists.
  - vm_compute. reflexivity.
  - split.
    + rewrite (Hkeep 1); [reflexivity|].
      intros Hin. vm_compute in Hin.
      repeat (apply elem_of_cons in Hin as [Hin|Hin]; [discriminate|]).
      by apply elem_of_nil in Hin.
    + apply (Hlast [item (VInt 2) "a"] (item (VInt 2) "b") []); [reflexivity|].
      apply not_elem_of_nil.
Defined.

Lemma safe_replace_issues_supersedes_witness :
  let items := [item (VInt 2) "a"; item (VInt 2) "b"; item (VInt 4) "c"] in
  let w := world_with {[1 := row_of "old"]} in
  let w' := snd (safe_replace_issues no_text_ids items w) in
  issues (committed w') !! 1 = None /\ get_issues_count w' = 2.
Proof.
  intros items w w'.
  destruct (safe_replace_issues_supersedes no_text_ids items w w' 3)
    as (_ & Hgone & _ & Hcount).
  - discriminate.
  - repeat constructor; by eexists.
  - vm_compute. reflexivity.
  - split.
    + apply Hgone. intros Hin. vm_compute in Hin.
      repeat (apply elem_of_cons in Hin as [Hin|Hin]; [discriminate|]).
      by apply elem_of_nil in Hin.
    + rewrite Hcount. vm_compute. reflexivity.
Defined.

Lemma safe_replace_issues_idempotent_witness :
  let items := [item (VInt 1) "a"; item VNone "b"] in
  let w1 := world_with ∅ in
  let w2 := world_with {[9 := row_of "old"]} in
  written_cells (snd (safe_replace_issues no_text_ids items w1))
  = written_cells (snd (safe_replace_issues no_text_ids items w2)).
Proof.
  intros items w1 w2.
  destruct (safe_replace_issues_idempotent no_text_ids items
              w1 (snd (safe_replace_issues no_text_ids items w1))
              w2 (snd (safe_replace_issues no_text_ids items w2)) 2 2)
    as [_ H]; [vm_compute; reflexivity | vm_compute; reflexivity | discriminate | |].
  - intros k Hk. apply eq_None_not_Some. intros [r Hr].
    apply elem_of_map_to_list in Hr. vm_compute in Hr.
    apply elem_of_cons in Hr as [[= -> _]|Hr]; [lia|].
    apply elem_of_cons in Hr as [[= -> _]|Hr]; [lia|].
    by apply elem_of_nil in Hr.
  - exact H.
Defined.

Lemma clear_issues_outcome_witness :
  get_all_issues (snd (clear_issues (world_with {[1 := row_of "x"]}))) = [].
Proof.
  pose proof (clear_issues_outcome (world_with {[1 := row_of "x"]})
                (snd (clear_issues (world_with {[1 := row_of "x"]}))) (Return tt)) as H.
  destruct H as (_ & _ & H); [vm_compute; reflexivity|]. exact H.
Defined.

Lemma log_sync_appends_witness :
  sync_log (committed (snd (log_sync 3 "success" "Test sync" (world_with ∅))))
  = [mk_sync_record 3 "success" "Test sync"].
Proof.
  destruct (log_sync_appends 3 "success" "Test sync" (world_with ∅)
              (snd (log_sync 3 "success" "Test sync" (world_with ∅))) (Return tt))
    as [_ H]; [vm_compute; reflexivity|].
  rewrite H. reflexivity.
Defined.

Lemma get_all_issues_write_back_witness :
  let w := world_with {[2 := row_of "b"; 1 := blank_row]} in
  let u := world_with {[7 := row_of "z"]} in
  let items := (fun d : dict => <["created_at" := VStr "2026-01-23 10:00:00"]> d)
               <$> get_all_issues w in
  written_cells (snd (safe_replace_issues no_text_ids items u)) = written_cells w.
Proof.
  intros w u items.
  destruct (get_all_issues_write_back no_text_ids items w u
              (snd (safe_replace_issues no_text_ids items u)) 2)
    as [H _];
    [vm_compute; reflexivity | vm_compute; reflexivity
    | intros Hnil; vm_compute in Hnil; discriminate |].
  exact H.
Defined.

Lemma get_all_issues_shape_witness :
  exists k, row_dict (1, blank_row) !! "id" = Some (VInt k)
            /\ is_Some (issues (committed (world_with {[1 := blank_row]})) !! k).
Proof.
  destruct (get_all_issues_shape (world_with {[1 := blank_row]})
              (row_dict (1, blank_row)))
    as (_ & H & _); [apply list_elem_of_here|].
  exact H.
Defined.

Lemma sync_ledger_witness :
  sync_log (committed (snd (sync no_text_ids ledger_down)))
  = sync_log (committed ledger_down).
Proof.
  exact (sync_ledger no_text_ids ledger_down (snd (sync no_text_ids ledger_down))
           (Raise disk_error) ltac:(vm_compute; reflexivity)).
Defined.

Lemma sync_failure_keeps_issues_witness :
  let w := world_with {[1 := row_of "old"]} in
  issues (committed (snd (sync no_text_ids w))) = issues (committed w).
Proof.
  intros w.
  destruct (sync_failure_keeps_issues no_text_ids w
              (snd (init_database w))
              (snd (fetch_google_sheets_data (snd (init_database w))))
              (snd (sync no_text_ids w))
              (mk_exn "APIError" "503") (fst (sync no_text_ids w)))
    as [H _].
  - right. split; [vm_compute; reflexivity|]. left. vm_compute. reflexivity.
  - vm_compute. reflexivity.
  - exact H.
Defined.

Lemma safe_replace_issues_returns_witness :
  exists w',
    safe_replace_issues no_text_ids SAMPLE_ISSUES (world_with ∅) = (Return 3, w').
Proof.
  destruct (safe_replace_issues_returns no_text_ids SAMPLE_ISSUES (world_with ∅))
    as (w' & H & _).
  - discriminate.
  - intros n. reflexivity.
  - repeat constructor; try (eexists; reflexivity); vm_compute; reflexivity.
  - exists w'. exact H.
Defined.

Lemma sync_returns_true_witness :
  let raw_data : list dict :=
    [ {[ "ID" := VInt 1; "Progress" := VStr "done" ]};
      {[ "ID" := VStr ""; "Progress" := VStr "Done" ]};
      {[ "ID" := VInt 2; "Progress" := VStr " Blocked " ]} ] in
  let w := mk_world (mk_database ∅ []) (mk_database ∅ []) no_faults 0
             (fun _ => Return raw_data) 0 [] no_entropy in
  exists w',
    sync no_text_ids w = (Return true, w')
    /\ sync_log (committed w') = [mk_sync_record 2 "success" "Full sync completed"].
Proof.
  intros raw_data w.
  destruct (sync_returns_true no_text_ids w raw_data) as (w' & Hsync & Hlog & _).
  - intros n. reflexivity.
  - reflexivity.
  - repeat constructor; try (eexists; reflexivity); vm_compute; reflexivity.
  - vm_compute. reflexivity.
  - exists w'. split; [exact Hsync | exact Hlog].
Defined.
